(* ===== verification/_CoqProject ===== *)
-Q . S2P
Prelude.v
SchemaObject.v
LocalResourceHandler.v
PollerSystem.v
QueryParamValueSetter.v
