(* ===== verification/Prelude.v ===== *)
(** * A verification development for three Superlinked source files

    The repository excerpt holds three independent Python components; this
    library gives each a shallow embedding and proves what makes it correct.

    - [SchemaObject.v] models
      [src/framework/src/framework/common/schema/schema_object.py]:
      a [SchemaObject] is an object of a heap ([gmap positive]) whose
      [__dict__] is a [gmap string attr]; [_init_field] allocates a field
      and [setattr]s it, so a field's back-reference [schema_obj] is an
      object identity, exactly what Python's [==] on schema objects
      compares.  The field classes [String], [Timestamp], [Blob], [Float],
      [Integer], [FloatList], [StringList] are the constructors of
      [field_class]; [parse], [_built_in_equal], [__hash__], [__str__] and
      the two [__add__] methods are definitions of the file.  Theorems:
      the heap invariant (every attribute field points back to its object,
      carries its declared type) and its preservation by [_init_field] and
      [SchemaObject.__init__]; field equality is an equivalence (a setoid,
      with [Proper] instances) consistent with [__hash__]; [parse] returns
      a value of the declared type and is idempotent; [Blob + String] builds
      a [DescribedBlob], while [String + Blob] raises [TypeError] (the
      guard in [String.__add__] tests [String], not [Blob]).  The string
      form [SchemaField.__str__] round-trips: a decoder
      ([decode_field_str], which reads the schema name, the type and the
      name from the right) recovers the field's class, name, type and
      schema name whenever the schema name has no comma, whatever the
      field name holds.

    - [LocalResourceHandler.v] models
      [src/server/runner/poller/app/resource_handler/local/local_resource_handler.py]:
      the world is a file tree (paths as lists of components), the
      destination directory ([gmap string string]), the base class's state
      and the trace of observable effects (copies, logs, notifications).
      The base class [ResourceHandler], which is not under [src/], is the
      interface [ResourceHandlerBase] (a [Class]); [poll] and
      [_process_file] are proved against it, and [LastSeen] is an instance
      built from the spec (a last-seen-time table, compare-and-record).
      Theorems: a missing root does nothing but log; only allowed names are
      copied; the executor is notified at most once, and exactly when some
      copy succeeded; copy errors are isolated; every allowed file is
      examined; [poll] refines an abstract single-pass specification; with
      the [LastSeen] base a second poll of an unchanged tree copies nothing,
      only files newer than their record are copied, and, when the allowed
      names are distinct and can be stat'ed, every outdated readable file
      is mirrored into the destination with its content; after any poll,
      each destination path holds the content of the last file copied to
      it.  Three findings are proved as general theorems: an
      [os.path.getmtime] failure escapes [poll] after copies that no later
      poll repeats while their modification times stay unchanged, so the
      executor is never told of them ([poll_lost_notification]); files
      with the same basename in different directories share one record
      and one destination, the last copied winning
      ([poll_dest_last_copy_wins]); a copy that fails with
      [PermissionError] is never retried, since the record was taken
      before the copy ([poll_permission_failure_stale]).

    - [PollerSystem.v] composes the calls of [poll] over time (the runner,
      which is not under [src/], is modelled from the spec): [sys_step] is
      one [poll], whatever it returns, or an arbitrary change of the tree
      and of the destination's permission; the base's records, the
      destination and the trace persist.  By rule induction on the steps
      ([rtc], [reachable_ind]) every reachable state keeps the store
      invariant (destination files belong to allowed names that have
      records) and has no more notifications than copies; and the work
      of the polls terminates: after the first poll of an unchanging
      tree, any number of further polls copy and notify nothing and leave
      the records and the destination unchanged, even when they raise
      ([sys_polls_settle], through the fixed point [settled] of the
      abstract pass).

    - [QueryParamValueSetter.v] models
      [src/framework/src/framework/dsl/query/query_param_value_setter.py]:
      a query descriptor is a list of clauses with value and weight
      parameters; the clause methods [alter_value]/[alter_weight], which
      are not under [src/], form the interface [ClauseOps] whose laws are
      the spec's contract, and the natural-language evaluator is a
      [Context] variable of the section (an oracle).  Theorems:
      [validate_params] succeeds exactly when every key is the value or
      weight parameter of some clause, and otherwise raises a [ValueError] whose message names each unknown
      key; [set_values] fails the same way and before any change; explicit
      values win over values inferred from the natural-language query,
      which only fill the parameters left open; [set_values] calls the
      evaluator with the natural query after the explicit overrides and
      fills the open parameters from that call; mandatory clauses are
      present in the result.  The interface laws determine the clause
      alteration ([alter_clause_char]), and the two passes are equivalent
      to the single merge of [params ∪ nlq_params] the spec's design notes
      describe ([set_values_merged]) when no explicit key names an already
      evaluated parameter; an example shows the condition is needed.

    This file, the prelude, holds what the components share: Python's
    exceptions and a result type, a state-and-exception monad [PyST] whose
    failures keep the effects already performed (as Python does), its
    notation in [py_scope], Python values and types, [str.join] with its
    substring lemma, the decoding helpers on lists of characters
    ([strip_prefix], [split_at], [first_prefix]), the hint database [py]
    and the tactic [py_simp].

    Bounds and fuel: no definition needs fuel.  The file tree is an inductive
    type and [os.walk] is structural on it; every loop of the sources is a
    fold over a finite list, so each call terminates by construction; the
    termination theorem is that of the repeated polls of [PollerSystem.v],
    which stop changing anything after the first.  The system of [PollerSystem.v] is a relation, not a
    function, and its concrete runs are built by the executable schedule
    [run_script].

    Not modelled: logging output formats (a log call is a trace event),
    [os.walk]'s [onerror] and symlink following (a broken link is a file
    whose [getmtime] fails), concurrent changes to the tree during a poll
    (the environment changes the tree only between polls), what the
    runner does with an exception raised by [poll] (the system allows
    any continuation),
    the natural-language evaluator's internals (an oracle), and the
    comparison-operand framework beyond [_built_in_equal]. *)

From Stdlib Require Export ZArith QArith Ascii String.
From stdpp Require Export base gmap strings list.

Declare Scope py_scope.
Delimit Scope py_scope with py.

(** ** Python exceptions and results *)

Inductive exc :=
| ValueError (msg : string)
| TypeError (msg : string)
| AttributeError (msg : string)
| FileNotFoundError (path : string)
| PermissionError (path : string)
| IsADirectoryError (path : string).

#[export] Instance exc_eq_dec : EqDecision exc.
Proof. solve_decision. Defined.

Inductive result (A : Type) :=
| Ok (a : A)
| Err (e : exc).
Arguments Ok {A} a.
Arguments Err {A} e.

#[export] Instance result_eq_dec {A} `{!EqDecision A} : EqDecision (result A).
Proof. solve_decision. Defined.

Definition result_bind {A B} (r : result A) (k : A -> result B) : result B :=
  match r with Ok a => k a | Err e => Err e end.

Notation "x <-? r ;; k" := (result_bind r (fun x => k))
  (at level 100, r at next level, right associativity) : py_scope.

(** ** A state and exception monad

    [PyST S A] runs on a state [S] and returns a result together with the
    final state: an exception keeps the state reached when it was raised,
    as the side effects of Python code survive a raise. *)

Definition PyST (S A : Type) := S -> result A * S.

Section PyST.
Context {S : Type}.

Definition py_ret {A} (a : A) : PyST S A := fun s => (Ok a, s).
Definition py_raise {A} (e : exc) : PyST S A := fun s => (Err e, s).
Definition py_bind {A B} (c : PyST S A) (k : A -> PyST S B) : PyST S B :=
  fun s => match c s with
           | (Ok a, s') => k a s'
           | (Err e, s') => (Err e, s')
           end.
Definition py_get : PyST S S := fun s => (Ok s, s).
Definition py_modify (f : S -> S) : PyST S unit := fun s => (Ok tt, f s).

(** [try: c except <caught e>: h e]: an exception the predicate selects
    is handled in the state the body left. *)
Definition py_try {A} (c : PyST S A) (caught : exc -> bool)
  (h : exc -> PyST S A) : PyST S A :=
  fun s => match c s with
           | (Err e, s') => if caught e then h e s' else (Err e, s')
           | r => r
           end.

(** [for x in l: acc = f(acc, x)] *)
Fixpoint py_fold {A B} (f : A -> B -> PyST S A) (l : list B) (a : A)
  : PyST S A :=
  match l with
  | [] => py_ret a
  | x :: l' => py_bind (f a x) (fun a' => py_fold f l' a')
  end.
End PyST.

Notation "x <- c ;; k" := (py_bind c (fun x => k))
  (at level 100, c at next level, right associativity) : py_scope.
Notation "c ;; k" := (py_bind c (fun _ : unit => k))
  (at level 100, right associativity) : py_scope.

(** ** Python values and types *)

(** [BlobInformation] is an external class; a blob value is known by its
    path. *)
Inductive pyval :=
| VNone
| VBool (b : bool)
| VInt (z : Z)
| VFloat (q : Q)
| VStr (s : string)
| VBlob (path : string)
| VList (l : list pyval).

(** [bool(v)] *)
Definition py_truthy (v : pyval) : bool :=
  match v with
  | VNone => false
  | VBool b => b
  | VInt z => negb (Z.eqb z 0)
  | VFloat q => negb (Qeq_bool q 0)
  | VStr s => negb (String.eqb s "")
  | VBlob _ => true
  | VList l => negb (bool_decide (l = []))
  end.

(** The type objects a schema field declares. *)
Inductive py_type := TStr | TInt | TBlobInformation | TFloat | TListFloat | TListStr.

#[export] Instance py_type_eq_dec : EqDecision py_type.
Proof. solve_decision. Defined.

(** [isinstance(v, t)] for the declared types, elementwise for lists. *)
Definition scalar_has_type (t : py_type) (v : pyval) : bool :=
  match t, v with
  | TStr, VStr _ | TInt, VInt _ | TFloat, VFloat _
  | TBlobInformation, VBlob _ => true
  | _, _ => false
  end.

Definition has_type (t : py_type) (v : pyval) : bool :=
  match t, v with
  | TListFloat, VList l => forallb (scalar_has_type TFloat) l
  | TListStr, VList l => forallb (scalar_has_type TStr) l
  | TListFloat, _ | TListStr, _ => false
  | _, _ => scalar_has_type t v
  end.

(** ** Strings *)

Local Open Scope string_scope.

(** [sep.join(l)] *)
Fixpoint str_join (sep : string) (l : list string) : string :=
  match l with
  | [] => ""
  | [x] => x
  | x :: l' => x ++ sep ++ str_join sep l'
  end.

Definition is_substring (t s : string) : Prop :=
  exists pre post, s = pre ++ t ++ post.

(** [String.append] is [simpl never]: its two equations, for rewriting. *)
Lemma string_app_nil_l (b : string) : "" ++ b = b.
Proof. reflexivity. Qed.

Lemma string_app_cons x (a b : string) : String x a ++ b = String x (a ++ b).
Proof. reflexivity. Qed.

Lemma string_app_assoc (a b c : string) : (a ++ b) ++ c = a ++ (b ++ c).
Proof.
  induction a as [|x a IH]; [done|]. by rewrite !string_app_cons, IH.
Qed.

Lemma string_app_nil_r (a : string) : a ++ "" = a.
Proof. induction a as [|x a IH]; [done|]. by rewrite string_app_cons, IH. Qed.

Lemma string_app_inj_l (a b c : string) : a ++ b = a ++ c -> b = c.
Proof.
  induction a as [|x a IH]; [done|]. rewrite !string_app_cons. intros [= H]. by apply IH.
Qed.

(** ** Strings as lists of characters, for decoders *)

Abbreviation chars := list_ascii_of_string.

Lemma chars_app (a b : string) : chars (a ++ b) = (chars a ++ chars b)%list.
Proof. induction a as [|x a IH]; [done|]. rewrite string_app_cons. simpl. by f_equal. Qed.

(** [l] without the prefix [p], if [p] is one. *)
Fixpoint strip_prefix {A} `{!EqDecision A} (p l : list A) : option (list A) :=
  match p, l with
  | [], _ => Some l
  | x :: p', y :: l' => if decide (x = y) then strip_prefix p' l' else None
  | _ :: _, [] => None
  end.

(** The parts before and after the first occurrence of [c]. *)
Fixpoint split_at {A} `{!EqDecision A} (c : A) (l : list A)
  : option (list A * list A) :=
  match l with
  | [] => None
  | x :: l' =>
      if decide (x = c) then Some ([], l')
      else (fun '(a, b) => (x :: a, b)) <$> split_at c l'
  end.

(** The first candidate whose key prefixes [l], with the rest of [l]. *)
Fixpoint first_prefix {A B} `{!EqDecision A} (cands : list (B * list A)) (l : list A)
  : option (B * list A) :=
  match cands with
  | [] => None
  | (b, p) :: cs =>
      match strip_prefix p l with
      | Some r => Some (b, r)
      | None => first_prefix cs l
      end
  end.

Section char_lists.
Context {A : Type} `{!EqDecision A}.
Local Open Scope list_scope.

Lemma strip_prefix_app (p l : list A) : strip_prefix p (p ++ l) = Some l.
Proof. induction p as [|x p IH]; simpl; [done|]. by rewrite decide_True. Qed.

Lemma split_at_app (c : A) (a b : list A) :
  c ∉ a -> split_at c (a ++ c :: b) = Some (a, b).
Proof.
  induction a as [|x a IH]; intros Hc; simpl; [by rewrite decide_True|].
  apply not_elem_of_cons in Hc as [Hx Ha].
  rewrite decide_False by done. by rewrite IH.
Qed.

End char_lists.

Lemma is_substring_refl t : is_substring t t.
Proof. exists "", "". by rewrite string_app_nil_r. Qed.

Lemma is_substring_app_l t s u : is_substring t s -> is_substring t (u ++ s).
Proof.
  intros (pre & post & ->). exists (u ++ pre), post.
  by rewrite string_app_assoc.
Qed.

Lemma is_substring_app_r t s u : is_substring t s -> is_substring t (s ++ u).
Proof.
  intros (pre & post & ->). exists pre, (post ++ u).
  by rewrite !string_app_assoc.
Qed.

Lemma str_join_substring sep x l :
  x ∈ l -> is_substring x (str_join sep l).
Proof.
  induction l as [|y l IH]; [by intros ?%elem_of_nil|].
  intros [->|Hin]%elem_of_cons; destruct l as [|z l].
  - apply is_substring_refl.
  - apply is_substring_app_r, is_substring_refl.
  - by apply elem_of_nil in Hin.
  - apply is_substring_app_l, is_substring_app_l, IH, Hin.
Qed.

(** ** Automation *)

Create HintDb py.
Create Rewrite HintDb py_rw.

Lemma py_bind_ret {S A B} (a : A) (k : A -> PyST S B) (s : S) :
  py_bind (py_ret a) k s = k a s.
Proof. reflexivity. Qed.

Lemma py_bind_raise {S A B} (e : exc) (k : A -> PyST S B) (s : S) :
  py_bind (py_raise e) k s = (Err e, s).
Proof. reflexivity. Qed.

Lemma py_bind_assoc {S A B C} (c : PyST S A) (k1 : A -> PyST S B)
  (k2 : B -> PyST S C) (s : S) :
  py_bind (py_bind c k1) k2 s = py_bind c (fun a => py_bind (k1 a) k2) s.
Proof. unfold py_bind. by destruct (c s) as [[a|e] s']. Qed.

Lemma py_bind_ext {S A B} (c : PyST S A) (k1 k2 : A -> PyST S B) (s : S) :
  (forall a s', k1 a s' = k2 a s') -> py_bind c k1 s = py_bind c k2 s.
Proof. intros Hk. unfold py_bind. by destruct (c s) as [[a|e] s']. Qed.

Lemma py_fold_app {S A B} (f : A -> B -> PyST S A) l1 l2 a (s : S) :
  py_fold f (l1 ++ l2) a s =
  py_bind (py_fold f l1 a) (fun a' => py_fold f l2 a') s.
Proof.
  revert a s. induction l1 as [|x l1 IH]; intros a s; simpl; [done|].
  rewrite py_bind_assoc. apply py_bind_ext. intros a' s'. apply IH.
Qed.

Lemma py_bind_ext_l {S A B} (c1 c2 : PyST S A) (k : A -> PyST S B) (s : S) :
  (forall s', c1 s' = c2 s') -> py_bind c1 k s = py_bind c2 k s.
Proof. intros Hc. unfold py_bind. by rewrite Hc. Qed.

(** Two nested [for] loops sharing an accumulator are one loop over the
    flattened pairs. *)
Lemma py_fold_flat_map {S A B C} (g : B -> A -> C -> PyST S A)
  (l : list (B * list C)) (a : A) (s : S) :
  py_fold (fun acc '(r, xs) => py_fold (g r) xs acc) l a s =
  py_fold (fun acc '(r, x) => g r acc x)
          (flat_map (fun '(r, xs) => map (pair r) xs) l) a s.
Proof.
  revert a s. induction l as [|[r xs] l IH]; intros a s; [done|].
  simpl. rewrite py_fold_app.
  assert (Hin : forall a' s', py_fold (g r) xs a' s' =
    py_fold (fun acc '(r, x) => g r acc x) (map (pair r) xs) a' s').
  { induction xs as [|x xs IHxs]; intros a' s'; [done|]. simpl.
    apply py_bind_ext. intros; apply IHxs. }
  rewrite (py_bind_ext_l _ _ _ _ (Hin a)). apply py_bind_ext. intros; apply IH.
Qed.

#[export] Hint Rewrite @py_bind_ret @py_bind_raise @py_bind_assoc : py_rw.
#[export] Hint Resolve is_substring_refl is_substring_app_l
  is_substring_app_r str_join_substring : py.

(** Unfold the monad's combinators and reduce. *)
Ltac py_simp :=
  repeat (unfold py_bind, py_ret, py_raise, py_get, py_modify, py_try in *;
          simpl in *).
