(* ===== verification/SchemaObject.v ===== *)
(** * Schema objects and typed schema fields

    Models [src/framework/src/framework/common/schema/schema_object.py].
    Schema objects live in a heap indexed by object identity, each with its
    [__dict__]; a field stores the identity of the object it was created
    for.  The file holds the field classes, [parse], [_built_in_equal] and
    [__hash__] with the setoid they induce, the two [__add__] methods and
    [DescribedBlob], [_init_field] on the heap, and the string forms. *)

From S2P Require Import Prelude.

Local Open Scope string_scope.

Module Schema.

(** ** Data *)

(** Object identity of a [SchemaObject] ([id(obj)]). *)
Abbreviation obj_id := positive.

(** [ConcreteSchemaField]: the concrete subclasses of [SchemaField]. *)
Inductive field_class :=
| String | Timestamp | Blob | Float | Integer | FloatList | StringList.

#[export] Instance field_class_eq_dec : EqDecision field_class.
Proof. solve_decision. Defined.

(** [self.__class__.__name__] of a field. *)
Definition class_name (c : field_class) : string :=
  match c with
  | String => "String" | Timestamp => "Timestamp" | Blob => "Blob"
  | Float => "Float" | Integer => "Integer" | FloatList => "FloatList"
  | StringList => "StringList"
  end.

(** The [type_] each subclass' [__init__] passes to [SchemaField.__init__]. *)
Definition value_type (c : field_class) : py_type :=
  match c with
  | String => TStr
  | Timestamp => TInt
  | Blob => TBlobInformation
  | Float => TFloat
  | Integer => TInt
  | FloatList => TListFloat
  | StringList => TListStr
  end.

(** The attributes [name], [schema_obj], [type_] of a [SchemaField]
    instance, with its class. *)
Record SchemaField := mkSchemaField {
  sf_class : field_class;
  name : string;
  schema_obj : obj_id;
  type_ : py_type
}.

#[export] Instance SchemaField_eq_dec : EqDecision SchemaField.
Proof. solve_decision. Defined.

(** [SchemaField.__init__(self, name, schema_obj, type_)] as called by the
    [__init__] of class [c]. *)
Definition SchemaField_init (c : field_class) (n : string) (o : obj_id)
  : SchemaField :=
  {| sf_class := c; name := n; schema_obj := o; type_ := value_type c |}.

(** ** parse *)

Definition SchemaField_parse (v : pyval) : pyval := v.

Definition FloatList_parse (v : pyval) : pyval :=
  match v with VList _ => v | _ => VList [v] end.

Definition StringList_parse (v : pyval) : pyval :=
  match v with VList _ => v | _ => VList [v] end.

(** Method resolution of [field.parse(value)]. *)
Definition parse (f : SchemaField) (v : pyval) : pyval :=
  match sf_class f with
  | FloatList => FloatList_parse v
  | StringList => StringList_parse v
  | _ => SchemaField_parse v
  end.

(** ** Equality and hashing *)

(** A Python object on either side of [==]: a schema field or anything
    else. *)
Inductive operand := OField (f : SchemaField) | OOther.

Definition _built_in_equal (left_operand right_operand : operand) : bool :=
  match left_operand, right_operand with
  | OField l, OField r =>
      String.eqb (name r) (name l) && Pos.eqb (schema_obj r) (schema_obj l)
  | _, _ => false
  end.

Definition _built_in_not_equal (left_operand right_operand : operand) : bool :=
  negb (_built_in_equal left_operand right_operand).

(** [hash((self.name, self.schema_obj))], for Python's tuple hash given as
    a parameter. *)
Definition __hash__ (py_hash : string * obj_id -> Z) (f : SchemaField) : Z :=
  py_hash (name f, schema_obj f).

(** ** DescribedBlob and [__add__] *)

(** [@dataclass(frozen=True) class DescribedBlob: blob: Blob;
    description: String] *)
Record DescribedBlob := mkDescribedBlob {
  blob : SchemaField;
  description : SchemaField
}.

Definition isinstance_String (o : operand) : bool :=
  match o with OField f => bool_decide (sf_class f = String) | OOther => false end.

(** [String.__add__]: the guard tests [String]. *)
Definition String___add__ (self : SchemaField) (other : operand)
  : result DescribedBlob :=
  match other with
  | OField g =>
      if isinstance_String other
      then Ok {| blob := g; description := self |}
      else Err (TypeError "Operand must be of type Blob")
  | OOther => Err (TypeError "Operand must be of type Blob")
  end.

Definition Blob___add__ (self : SchemaField) (other : operand)
  : result DescribedBlob :=
  match other with
  | OField g =>
      if isinstance_String other
      then Ok {| blob := self; description := g |}
      else Err (TypeError "Operand must be of type String")
  | OOther => Err (TypeError "Operand must be of type String")
  end.

(** The dataclass' annotations, as a well-formedness predicate. *)
Definition described_blob_wf (d : DescribedBlob) : Prop :=
  sf_class (blob d) = Blob /\ sf_class (description d) = String.

(** ** Schema objects on a heap *)

(** A value of an object's [__dict__]: the class stored as [_base_cls], or a
    field stored by [setattr]. *)
Inductive attr := AttrClass (cls_name : string) | AttrField (f : SchemaField).

Record SchemaObject := mkSchemaObject {
  so_class : string;             (* type(self).__name__ *)
  so_dict : gmap string attr     (* self.__dict__ *)
}.

Abbreviation heap := (gmap obj_id SchemaObject).

(** [SchemaObject.__init__(self, base_cls)], for an instance of a class
    named [cls_name] allocated at a fresh identity. *)
Definition SchemaObject_init (cls_name base_cls : string) (h : heap)
  : obj_id * heap :=
  let o := fresh (dom h) in
  (o, <[o := {| so_class := cls_name;
                so_dict := {["_base_cls" := AttrClass base_cls]} |}]> h).

(** [getattr(obj, k)] on the instance dictionary. *)
Definition getattr (h : heap) (o : obj_id) (k : string) : option attr :=
  h !! o ≫= fun so => so_dict so !! k.

(** [setattr(obj, k, a)]. *)
Definition setattr (h : heap) (o : obj_id) (k : string) (a : attr) : heap :=
  match h !! o with
  | Some so => <[o := {| so_class := so_class so;
                         so_dict := <[k := a]> (so_dict so) |}]> h
  | None => h
  end.

(** [self._base_cls.__name__]: a field stored over [_base_cls] has no
    [__name__]. *)
Definition _base_class_name (h : heap) (o : obj_id) : result string :=
  match getattr h o "_base_cls" with
  | Some (AttrClass n) => Ok n
  | Some (AttrField f) =>
      Err (AttributeError ("'" ++ class_name (sf_class f) ++
                           "' object has no attribute '__name__'"))
  | None => Err (AttributeError "object has no attribute '_base_cls'")
  end.

Definition _schema_name (h : heap) (o : obj_id) : result string :=
  _base_class_name h o.

(** [@dataclass class SchemaFieldDescriptor]; [type_] is one of the
    concrete field classes. *)
Record SchemaFieldDescriptor := mkSchemaFieldDescriptor {
  fd_name : string;
  fd_type_ : field_class;
  fd_type_args : list py_type
}.

(** [SchemaObject._init_field]: construct the field for [self], store it
    as an attribute, return it. *)
Definition _init_field (h : heap) (o : obj_id) (d : SchemaFieldDescriptor)
  : SchemaField * heap :=
  let value := SchemaField_init (fd_type_ d) (fd_name d) o in
  (value, setattr h o (fd_name d) (AttrField value)).

Definition _get_schema_fields (so : SchemaObject) : list SchemaField := [].

(** ** String forms *)

(** [f"{t}"] for a type object. *)
Definition type_str (t : py_type) : string :=
  match t with
  | TStr => "<class 'str'>"
  | TInt => "<class 'int'>"
  | TBlobInformation =>
      "<class 'superlinked.framework.common.schema.blob_information.BlobInformation'>"
  | TFloat => "<class 'float'>"
  | TListFloat => "list[float]"
  | TListStr => "list[str]"
  end.

Definition SchemaObject___str__ (h : heap) (o : obj_id) : result string :=
  match h !! o with
  | None => Err (AttributeError "object has no attribute '_base_cls'")
  | Some so =>
      let schema_fields :=
        str_join ", " (map (fun f => "(name=" ++ name f ++ ", type=" ++
                                      type_str (type_ f) ++ ")")
                           (_get_schema_fields so)) in
      result_bind (_schema_name h o) (fun sn =>
        Ok (so_class so ++ "(schema_name=" ++ sn ++ ", schema_fields=[" ++
            schema_fields ++ "])"))
  end.

Definition SchemaField___str__ (h : heap) (f : SchemaField) : result string :=
  result_bind (_schema_name h (schema_obj f)) (fun sn =>
    Ok (class_name (sf_class f) ++ "(name=" ++ name f ++ ", type=" ++
        type_str (type_ f) ++ ", schema_object_name=" ++ sn ++ ")")).

(** ** Reading the string form back

    A decoder for the form [SchemaField.__str__] prints: the class is
    read from the left; the schema name, the type and the field name are
    read from the right, the schema name being what follows the last
    comma.  It is not code of the repository: it states what the
    printed form determines. *)

Definition field_classes : list field_class :=
  [String; Timestamp; Blob; Float; Integer; FloatList; StringList].

Definition py_types : list py_type :=
  [TStr; TInt; TBlobInformation; TFloat; TListFloat; TListStr].

(** The class whose [ClassName(name=] starts [l], and the rest. *)
Definition decode_class (l : list ascii) : option (field_class * list ascii) :=
  first_prefix (map (fun c => (c, chars (class_name c ++ "(name="))) field_classes) l.

Definition decode_type (l : list ascii) : option py_type :=
  snd <$> list_find (fun t => chars (type_str t) = l) py_types.

Definition decode_field_str (s : string)
  : option (field_class * string * py_type * string) :=
  '(c, u) ← decode_class (chars s);
  match reverse u with
  | ")"%char :: v =>
      '(a, b) ← split_at ","%char v;
      sn ← strip_prefix (chars " schema_object_name=") (reverse a);
      '(c', d) ← split_at ","%char b;
      ts ← strip_prefix (chars " type=") (reverse c');
      t ← decode_type ts;
      Some (c, string_of_list_ascii (reverse d), t, string_of_list_ascii sn)
  | _ => None
  end.

(** ** Heap well-formedness *)

(** An object's [__dict__] holds its class under [_base_cls] and fields
    that point back to it, each under its own name and with the type its
    class declares. *)
Definition attr_wf (o : obj_id) (k : string) (a : attr) : Prop :=
  match a with
  | AttrClass _ => k = "_base_cls"
  | AttrField f => name f = k /\ schema_obj f = o /\ type_ f = value_type (sf_class f)
  end.

Definition has_base_cls (so : SchemaObject) : bool :=
  match so_dict so !! "_base_cls" with Some (AttrClass _) => true | _ => false end.

Definition obj_wf (o : obj_id) (so : SchemaObject) : Prop :=
  has_base_cls so = true /\ map_Forall (attr_wf o) (so_dict so).

Definition heap_wf (h : heap) : Prop := map_Forall obj_wf h.

#[export] Instance attr_wf_dec o k a : Decision (attr_wf o k a).
Proof. destruct a; simpl; apply _. Defined.

#[export] Instance obj_wf_dec o so : Decision (obj_wf o so).
Proof. unfold obj_wf. apply _. Defined.

#[export] Instance heap_wf_dec h : Decision (heap_wf h).
Proof. unfold heap_wf. apply _. Defined.

(** A field value accepted by [parse]: one of the declared type, or, for a
    list field, one element of it. *)
Definition list_elem_type (c : field_class) : option py_type :=
  match c with FloatList => Some TFloat | StringList => Some TStr | _ => None end.

Definition parse_accepts (c : field_class) (v : pyval) : bool :=
  has_type (value_type c) v ||
  match list_elem_type c with Some t => scalar_has_type t v | None => false end.

(** Field equality as a relation: the setoid of fields Python identifies. *)
Definition field_eq (f g : SchemaField) : Prop :=
  _built_in_equal (OField f) (OField g) = true.

(** ** Lemmas on attributes *)

Lemma getattr_setattr_eq h o k a so :
  h !! o = Some so -> getattr (setattr h o k a) o k = Some a.
Proof.
  intros Ho. unfold getattr, setattr. rewrite Ho, lookup_insert_eq. simpl.
  by rewrite lookup_insert_eq.
Qed.

Lemma getattr_setattr_ne h o k a o' k' :
  (o', k') <> (o, k) -> getattr (setattr h o k a) o' k' = getattr h o' k'.
Proof.
  intros Hne. unfold getattr, setattr. destruct (h !! o) as [so|] eqn:Ho; [|done].
  destruct (decide (o = o')) as [<-|Ho'].
  - rewrite lookup_insert_eq, Ho. simpl. rewrite lookup_insert_ne; congruence.
  - by rewrite lookup_insert_ne.
Qed.

Lemma setattr_other_obj h o k a o' :
  o' <> o -> setattr h o k a !! o' = h !! o'.
Proof.
  intros Hne. unfold setattr. destruct (h !! o); [|done].
  by rewrite lookup_insert_ne.
Qed.

Lemma heap_wf_lookup h o so : heap_wf h -> h !! o = Some so -> obj_wf o so.
Proof. intros Hwf Ho. exact (map_Forall_lookup_1 _ _ _ _ Hwf Ho). Qed.

Lemma obj_wf_setattr o so k a :
  obj_wf o so -> k <> "_base_cls" -> attr_wf o k a ->
  obj_wf o {| so_class := so_class so; so_dict := <[k := a]> (so_dict so) |}.
Proof.
  intros [Hb Hall] Hk Ha. split; simpl.
  - unfold has_base_cls in *. simpl. by rewrite lookup_insert_ne.
  - by apply map_Forall_insert_2.
Qed.

Lemma schema_name_wf h o so :
  heap_wf h -> h !! o = Some so ->
  exists n, so_dict so !! "_base_cls" = Some (AttrClass n) /\ _schema_name h o = Ok n.
Proof.
  intros Hwf Ho. destruct (heap_wf_lookup h o so Hwf Ho) as [Hb _].
  unfold has_base_cls in Hb. destruct (so_dict so !! "_base_cls") as [[n|]|] eqn:Hn;
    try discriminate.
  exists n. split; [done|]. unfold _schema_name, _base_class_name, getattr.
  by rewrite Ho; simpl; rewrite Hn.
Qed.

Lemma built_in_equal_fields f g :
  _built_in_equal (OField f) (OField g) = true <->
  name f = name g /\ schema_obj f = schema_obj g.
Proof.
  simpl. rewrite andb_true_iff, String.eqb_eq, Pos.eqb_eq. naive_solver.
Qed.

Lemma field_eq_iff f g :
  field_eq f g <-> name f = name g /\ schema_obj f = schema_obj g.
Proof. apply built_in_equal_fields. Qed.

#[export] Instance field_eq_equivalence : Equivalence field_eq.
Proof.
  split; repeat intro; rewrite field_eq_iff in *; intuition congruence.
Qed.

#[export] Instance name_proper : Proper (field_eq ==> eq) name.
Proof. intros f g Hfg. by apply field_eq_iff in Hfg as [-> _]. Qed.

#[export] Instance schema_obj_proper : Proper (field_eq ==> eq) schema_obj.
Proof. intros f g Hfg. by apply field_eq_iff in Hfg as [_ ->]. Qed.

#[export] Instance hash_proper py_hash : Proper (field_eq ==> eq) (__hash__ py_hash).
Proof. intros f g Hfg. unfold __hash__. by rewrite Hfg. Qed.

#[export] Instance built_in_equal_proper :
  Proper (field_eq ==> field_eq ==> eq)
    (fun f g => _built_in_equal (OField f) (OField g)).
Proof.
  intros f f' Hf g g' Hg. apply Bool.eq_iff_eq_true.
  change (field_eq f g <-> field_eq f' g'). by rewrite Hf, Hg.
Qed.

#[export] Hint Resolve getattr_setattr_eq getattr_setattr_ne setattr_other_obj
  heap_wf_lookup obj_wf_setattr : py.

(** ** Properties *)


(** C31. [_init_field] preserves the heap invariant: every object keeps its
    [_base_cls], and every field attribute points back to its object under
    its own name with its declared type, unless the field is named
    [_base_cls]. *)
Theorem init_field_preserves_wf h o d :
  heap_wf h -> fd_name d <> "_base_cls" -> heap_wf (_init_field h o d).2.
Proof.
  intros Hwf Hk. simpl. unfold setattr. destruct (h !! o) as [so|] eqn:Ho; [|done].
  apply map_Forall_insert_2; [|done].
  apply obj_wf_setattr; [eauto with py|done|]. simpl. done.
Qed.

(** C32. [SchemaObject.__init__] allocates an object at a fresh identity,
    leaves the other objects unchanged, keeps the heap invariant, and the
    new object's schema name is its base class' name. *)
Theorem SchemaObject_init_spec cls base h :
  heap_wf h ->
  let '(o, h') := SchemaObject_init cls base h in
  h !! o = None /\ heap_wf h' /\ _schema_name h' o = Ok base /\
  (forall o', o' <> o -> h' !! o' = h !! o').
Proof.
  intros Hwf. simpl. split_and!.
  - apply not_elem_of_dom, is_fresh.
  - apply map_Forall_insert_2; [|done]. split; [done|].
    apply map_Forall_singleton. done.
  - unfold _schema_name, _base_class_name, getattr. by rewrite lookup_insert_eq.
  - intros o' Hne. by rewrite lookup_insert_ne.
Qed.

(** C33. The schema name after [_init_field] is unchanged for every object,
    except when the field is named [_base_cls]: then the field replaces the
    base class in [self.__dict__] and [_schema_name] raises
    [AttributeError]. *)
Theorem schema_name_after_init_field h o so d o' :
  h !! o = Some so ->
  _schema_name (_init_field h o d).2 o' =
  if bool_decide (o' = o /\ fd_name d = "_base_cls")
  then Err (AttributeError ("'" ++ class_name (fd_type_ d) ++
                            "' object has no attribute '__name__'"))
  else _schema_name h o'.
Proof.
  intros Ho. unfold _schema_name, _base_class_name. case_bool_decide as Hc.
  - destruct Hc as [-> Hn]. unfold _init_field. cbn [snd].
    rewrite Hn.
    rewrite (getattr_setattr_eq _ _ _ _ so); done.
  - unfold _init_field. cbn [snd].
    rewrite getattr_setattr_ne; [done|]. intros [= -> Hk]. apply Hc. done.
Qed.

(** C35. Two operands are equal for [_built_in_equal] exactly when both
    are schema fields with the same name and the same owning schema object
    (by identity), whatever their field classes. *)
Theorem built_in_equal_spec l r :
  _built_in_equal l r = true <->
  exists f g, l = OField f /\ r = OField g /\
              name f = name g /\ schema_obj f = schema_obj g.
Proof.
  split.
  - destruct l as [f|], r as [g|]; try done.
    intros Heq%built_in_equal_fields. by exists f, g.
  - intros (f & g & -> & -> & Hn & Ho). by apply built_in_equal_fields.
Qed.

(** Field equality is an equivalence relation. *)
Theorem built_in_equal_equivalence :
  Equivalence (fun f g => _built_in_equal (OField f) (OField g) = true).
Proof. exact field_eq_equivalence. Qed.

(** C36. [__hash__] agrees with [_built_in_equal]: equal fields have equal
    hashes, for any hash function on [(name, schema_obj)] tuples. *)
Theorem hash_consistent py_hash f g :
  _built_in_equal (OField f) (OField g) = true ->
  __hash__ py_hash f = __hash__ py_hash g.
Proof. intros Hfg. change (field_eq f g) in Hfg. by rewrite Hfg. Qed.

(** C37. [parse] returns a value of the field's declared type for every
    input it accepts: a value of that type or, for [FloatList] and
    [StringList], a single element, which is wrapped into a list. *)
Theorem parse_has_type f v :
  type_ f = value_type (sf_class f) ->
  parse_accepts (sf_class f) v = true ->
  has_type (type_ f) (parse f v) = true.
Proof.
  destruct f as [c n o t]; simpl. intros ->.
  destruct c, v; simpl; unfold parse_accepts; simpl;
    rewrite ?orb_false_r, ?andb_true_r; done.
Qed.

(** [parse] is idempotent. *)
Theorem parse_idempotent f v : parse f (parse f v) = parse f v.
Proof. destruct f as [[] n o t], v; reflexivity. Qed.

(** C29. [Blob.__add__] on a [Blob] builds a well-typed [DescribedBlob]
    whose blob is [self] and whose description is the operand when the
    operand is a [String] field, and raises [TypeError] otherwise. *)
Theorem Blob_add_spec self other :
  sf_class self = Blob ->
  match Blob___add__ self other with
  | Ok d => described_blob_wf d /\ blob d = self /\ OField (description d) = other
  | Err e => e = TypeError "Operand must be of type String" /\
             isinstance_String other = false
  end.
Proof.
  intros Hb. destruct other as [g|]; simpl; [|done].
  case_bool_decide as Hg; simpl; [|done].
  by split_and!.
Qed.

(** C28. [String.__add__] succeeds only on a [String] operand, and then the
    [DescribedBlob] it builds puts that operand in its blob field and
    [self] in its description, so it is ill-typed (its blob is a
    [String]); every other operand, a [Blob] included, raises
    [TypeError]. *)
Theorem String_add_spec self other :
  match String___add__ self other with
  | Ok d => OField (blob d) = other /\ ~ described_blob_wf d /\
            sf_class (blob d) = String /\ description d = self
  | Err e => e = TypeError "Operand must be of type Blob" /\
             isinstance_String other = false
  end.
Proof.
  destruct other as [g|]; simpl; [|done].
  case_bool_decide as Hg; simpl; [|done].
  split_and!; [done| |done|done]. unfold described_blob_wf. simpl. rewrite Hg. by intros [? _].
Qed.

(** C27. [String("d") + Blob("b")] raises [TypeError], although the
    [DescribedBlob] contract pairs a [String] with a [Blob] in either
    order. *)
Theorem String_add_Blob_raises self g :
  sf_class self = String -> sf_class g = Blob ->
  String___add__ self (OField g) = Err (TypeError "Operand must be of type Blob").
Proof. intros _ Hg. simpl. by rewrite Hg. Qed.

(** ** The string form read back *)

Lemma decode_class_spec c rest :
  decode_class ((chars (class_name c) ++ chars "(name=") ++ rest)%list = Some (c, rest).
Proof. destruct c; reflexivity. Qed.

Lemma decode_type_spec t : decode_type (chars (type_str t)) = Some t.
Proof. destruct t; reflexivity. Qed.

Lemma type_str_no_comma t : ","%char ∉ chars (type_str t).
Proof. destruct t; apply (bool_decide_unpack _); vm_compute; reflexivity. Qed.

Lemma reverse_cons_app {A} (x : A) (l r : list A) :
  reverse ((x :: l) ++ r)%list = (reverse r ++ reverse l ++ [x])%list.
Proof. by rewrite reverse_app, reverse_cons, app_assoc. Qed.

(** The tail after the field name, reversed: the schema name, then the
    type, each followed by its label and a comma. *)
Lemma reverse_field_tail (n t sn : list ascii) :
  reverse (n ++ chars ", type=" ++ t ++ chars ", schema_object_name=" ++ sn ++ chars ")")%list =
  (")"%char :: (reverse sn ++ reverse (chars " schema_object_name=")) ++
   ","%char :: ((reverse t ++ reverse (chars " type=")) ++ ","%char :: reverse n))%list.
Proof.
  rewrite (reverse_app n). change (chars ", type=") with (","%char :: chars " type=").
  change (chars ", schema_object_name=") with (","%char :: chars " schema_object_name=").
  rewrite reverse_cons_app, (reverse_app t), reverse_cons_app, (reverse_app sn).
  change (reverse (chars ")")) with [")"%char]. by rewrite <- !app_assoc.
Qed.

(** Reduce the decoder's binds without unfolding its list functions. *)
Local Ltac dec_step := cbn -[list_ascii_of_string reverse split_at strip_prefix decode_type].

Lemma decode_field_str_spec c n t sn :
  ","%char ∉ chars sn ->
  decode_field_str (class_name c ++ "(name=" ++ n ++ ", type=" ++ type_str t ++
                    ", schema_object_name=" ++ sn ++ ")") = Some (c, n, t, sn).
Proof.
  intros Hsn. unfold decode_field_str.
  rewrite !chars_app, app_assoc, decode_class_spec.
  dec_step.
  rewrite reverse_field_tail.
  dec_step.
  rewrite split_at_app.
  2:{ rewrite elem_of_app, !elem_of_reverse. intros [H|H]; [done|].
      revert H. apply (bool_decide_unpack _). vm_compute. reflexivity. }
  dec_step.
  rewrite reverse_app, !reverse_involutive, strip_prefix_app.
  dec_step.
  rewrite split_at_app.
  2:{ rewrite elem_of_app, !elem_of_reverse. intros [H|H]; [by apply (type_str_no_comma t)|].
      revert H. apply (bool_decide_unpack _). vm_compute. reflexivity. }
  dec_step.
  rewrite reverse_app, !reverse_involutive, strip_prefix_app.
  dec_step.
  rewrite decode_type_spec.
  dec_step.
  by rewrite !string_of_list_ascii_of_string.
Qed.

(** C34. The string form of a field can be read back: when the schema
    name of the field's object contains no comma (a Python class name
    never does), [SchemaField.__str__] returns a string from which
    [decode_field_str] recovers the field's class, name, declared type
    and schema name, whatever characters the field name holds. *)
Theorem SchemaField_str_roundtrip h f sn :
  _schema_name h (schema_obj f) = Ok sn -> ","%char ∉ chars sn ->
  exists s, SchemaField___str__ h f = Ok s /\
            decode_field_str s = Some (sf_class f, name f, type_ f, sn).
Proof.
  intros Hsn Hc. unfold SchemaField___str__. rewrite Hsn. eexists. split; [done|].
  by apply decode_field_str_spec.
Qed.

(** ** Witnesses *)

Definition demo_alloc := SchemaObject_init "ProductSchema" "Product" ∅.

Definition demo_desc := mkSchemaFieldDescriptor "price" Float [].


Lemma init_field_preserves_wf_witness :
  heap_wf (_init_field demo_alloc.2 demo_alloc.1 demo_desc).2.
Proof.
  apply init_field_preserves_wf; [apply (bool_decide_unpack (heap_wf demo_alloc.2)); vm_compute; reflexivity | discriminate].
Defined.

Lemma SchemaObject_init_spec_witness :
  let '(o, h') := SchemaObject_init "ProductSchema" "Product" ∅ in
  (∅ : heap) !! o = None /\ heap_wf h' /\ _schema_name h' o = Ok "Product" /\
  (forall o', o' <> o -> h' !! o' = (∅ : heap) !! o').
Proof. apply SchemaObject_init_spec. apply (bool_decide_unpack (heap_wf ∅)). vm_compute. reflexivity. Defined.

Definition demo_clash := mkSchemaFieldDescriptor "_base_cls" String [].

Lemma schema_name_after_init_field_witness :
  _schema_name (_init_field demo_alloc.2 demo_alloc.1 demo_clash).2 demo_alloc.1 =
  Err (AttributeError "'String' object has no attribute '__name__'").
Proof.
  rewrite (schema_name_after_init_field _ _
             {| so_class := "ProductSchema";
                so_dict := {["_base_cls" := AttrClass "Product"]} |});
    vm_compute; reflexivity.
Defined.

Definition demo_price := SchemaField_init Float "price" 1.
Definition demo_price' := SchemaField_init Integer "price" 1.

Lemma hash_consistent_witness :
  __hash__ (fun '(n, o) => (Z.of_nat (String.length n) + Zpos o)%Z) demo_price =
  __hash__ (fun '(n, o) => (Z.of_nat (String.length n) + Zpos o)%Z) demo_price'.
Proof. apply hash_consistent. vm_compute. reflexivity. Defined.

Definition demo_vec := SchemaField_init FloatList "embedding" 1.

Lemma parse_has_type_witness :
  has_type (type_ demo_vec) (parse demo_vec (VFloat 3)) = true /\
  parse demo_vec (VFloat 3) = VList [VFloat 3].
Proof. split; [apply parse_has_type; reflexivity | reflexivity]. Defined.

Definition demo_image := SchemaField_init Blob "image" 1.
Definition demo_caption := SchemaField_init String "caption" 1.

Lemma Blob_add_spec_witness :
  match Blob___add__ demo_image (OField demo_caption) with
  | Ok d => described_blob_wf d /\ blob d = demo_image /\
            OField (description d) = OField demo_caption
  | Err e => e = TypeError "Operand must be of type String" /\
             isinstance_String (OField demo_caption) = false
  end.
Proof. apply Blob_add_spec. reflexivity. Defined.

Lemma String_add_Blob_raises_witness :
  String___add__ demo_caption (OField demo_image) =
  Err (TypeError "Operand must be of type Blob").
Proof. apply String_add_Blob_raises; reflexivity. Defined.

Lemma SchemaField_str_roundtrip_witness :
  exists s, SchemaField___str__ demo_alloc.2 demo_price = Ok s /\
            decode_field_str s = Some (Float, "price", TFloat, "Product").
Proof.
  apply (SchemaField_str_roundtrip demo_alloc.2 demo_price "Product").
  - vm_compute. reflexivity.
  - apply (bool_decide_unpack _). vm_compute. reflexivity.
Defined.

(** A field name that itself looks like the rest of the form is still
    read back whole. *)
Example SchemaField_str_tricky_name :
  decode_field_str (class_name String ++ "(name=" ++ "a, type=<class 'int'>" ++
                    ", type=" ++ type_str TStr ++ ", schema_object_name=" ++
                    "Product" ++ ")") =
  Some (String, "a, type=<class 'int'>", TStr, "Product").
Proof. vm_compute. reflexivity. Qed.

End Schema.
