(* ===== verification/LocalResourceHandler.v ===== *)
(** * The local resource poller

    Models [src/server/runner/poller/app/resource_handler/local/local_resource_handler.py]:
    [LocalResourceHandler.poll], [_process_file], [_download_file] and
    [get_bucket], over a world made of the source file tree, the
    destination directory, the state of the base class and the trace of
    observable effects.  The base class [ResourceHandler] (not under
    [src/]) is the interface [ResourceHandlerBase]; the instance
    [last_seen_base] implements it from the spec.  The Python library
    calls ([os.walk], [os.path.exists], [os.path.getmtime],
    [os.path.basename], [shutil.copy]) are modelled after their
    documentation. *)

From S2P Require Import Prelude.

Local Open Scope string_scope.

Module Poller.

(** ** The file tree *)

(** A regular file.  [f_mtime] is [None] when [stat] fails on the entry
    (a dangling symbolic link, which [os.walk] still lists as a file). *)
Record file_meta := mkFileMeta {
  f_mtime : option Z;
  f_readable : bool;
  f_content : string
}.

Inductive fs_node :=
| FsFile (m : file_meta)
| FsDir (mtime : Z) (entries : list (string * fs_node)).

(** A path as its list of components; [os.path.join(root, f)] is
    [root ++ [f]]. *)
Abbreviation path := (list string).

Definition path_str (p : path) : string := str_join "/" p.

Fixpoint fs_lookup (n : fs_node) (p : path) : option fs_node :=
  match p with
  | [] => Some n
  | x :: p' =>
      match n with
      | FsDir _ es =>
          match list_find (fun e => e.1 = x) es with
          | Some (_, (_, c)) => fs_lookup c p'
          | None => None
          end
      | FsFile _ => None
      end
  end.

(** [os.path.exists(p)] *)
Definition os_path_exists (n : fs_node) (p : path) : bool :=
  bool_decide (is_Some (fs_lookup n p)).

Definition file_names (es : list (string * fs_node)) : list string :=
  omap (fun e => match e.2 with FsFile _ => Some e.1 | FsDir _ _ => None end) es.

(** [os.walk(top)], top-down: the directory's own entry, then each
    subdirectory's walk in listing order. *)
Fixpoint walk_node (root : path) (n : fs_node) : list (path * list string) :=
  match n with
  | FsFile _ => []
  | FsDir _ es =>
      (root, file_names es) ::
      (fix walk_entries (es : list (string * fs_node)) :=
         match es with
         | [] => []
         | (x, c) :: es' => (walk_node (root ++ [x]) c ++ walk_entries es')%list
         end) es
  end.

(** [os.walk] on a missing path or a file yields nothing. *)
Definition os_walk (n : fs_node) (top : path) : list (path * list string) :=
  match fs_lookup n top with
  | Some (FsDir _ _ as d) => walk_node top d
  | _ => []
  end.

(** [os.path.basename(s)]: the part after the last ["/"]. *)
Fixpoint basename_acc (s acc : string) : string :=
  match s with
  | EmptyString => acc
  | String c s' =>
      if Ascii.eqb c "/"%char then basename_acc s' ""
      else basename_acc s' (acc ++ String c EmptyString)
  end.

Definition basename (s : string) : string := basename_acc s "".

(** ** The world and its effects *)

Inductive event :=
| EvLogError (msg : string) (p : path)
| EvLogInfo (msg : string) (file : string)
| EvLogException (msg : string) (file : string)
| EvCopy (src : path) (dst : string)
| EvNotify.

#[export] Instance event_eq_dec : EqDecision event.
Proof. solve_decision. Defined.

Record world (σ : Type) := mkWorld {
  w_fs : fs_node;
  w_dest : gmap string string;
  w_dest_writable : bool;
  w_base : σ;
  w_trace : list event
}.
Arguments mkWorld {σ}.
Arguments w_fs {σ}. Arguments w_dest {σ}. Arguments w_dest_writable {σ}.
Arguments w_base {σ}. Arguments w_trace {σ}.

(** [self.app_location.path] and [self.poller_config.allowed_files]. *)
Record handler_config := mkHandlerConfig {
  app_location_path : path;
  allowed_files : list string
}.

(** What the base class [ResourceHandler] provides to [poll]: the
    outdatedness check on the last known modification time, which may
    record the time it is given, and the destination of an object. *)
Class ResourceHandlerBase (σ : Type) := {
  is_object_outdated : Z -> string -> σ -> bool * σ;
  get_destination_path : string -> string
}.

Section Handler.
Context {σ : Type} `{!ResourceHandlerBase σ}.
Variable cfg : handler_config.

Local Abbreviation W := (world σ).
Local Open Scope py_scope.

Definition emit (ev : event) : PyST W unit :=
  py_modify (fun w => mkWorld (w_fs w) (w_dest w) (w_dest_writable w)
                              (w_base w) (w_trace w ++ [ev])%list).

Definition get_bucket : string := "local".

(** [os.path.getmtime(p)] *)
Definition os_path_getmtime (p : path) : PyST W Z :=
  fun w => match fs_lookup (w_fs w) p with
           | Some (FsFile m) =>
               match f_mtime m with
               | Some t => (Ok t, w)
               | None => (Err (FileNotFoundError (path_str p)), w)
               end
           | Some (FsDir t _) => (Ok t, w)
           | None => (Err (FileNotFoundError (path_str p)), w)
           end.

(** [shutil.copy(src, dst)]: open the source, then the destination. *)
Definition shutil_copy (src : path) (dst : string) : PyST W unit :=
  fun w => match fs_lookup (w_fs w) src with
           | None => (Err (FileNotFoundError (path_str src)), w)
           | Some (FsDir _ _) => (Err (IsADirectoryError (path_str src)), w)
           | Some (FsFile m) =>
               if negb (f_readable m) then (Err (PermissionError (path_str src)), w)
               else if bool_decide (f_mtime m = None)
               then (Err (FileNotFoundError (path_str src)), w)
               else if negb (w_dest_writable w) then (Err (PermissionError dst), w)
               else (Ok tt, mkWorld (w_fs w) (<[dst := f_content m]> (w_dest w))
                                    (w_dest_writable w) (w_base w)
                                    (w_trace w ++ [EvCopy src dst])%list)
           end.

Definition _download_file (_ : option string) (object_name : path)
  (download_path : string) : PyST W unit :=
  shutil_copy object_name download_path.

(** [ResourceHandler.download_file] delegates to [_download_file]. *)
Definition download_file (bucket : string) (object_name : path)
  (download_path : string) : PyST W unit :=
  _download_file (Some bucket) object_name download_path.

Definition is_object_outdated_st (t : Z) (n : string) : PyST W bool :=
  fun w => let '(b, s') := is_object_outdated t n (w_base w) in
           (Ok b, mkWorld (w_fs w) (w_dest w) (w_dest_writable w) s' (w_trace w)).

Definition notify_executor : PyST W unit := emit EvNotify.

Definition download_error (e : exc) : bool :=
  match e with FileNotFoundError _ | PermissionError _ => true | _ => false end.

(** [LocalResourceHandler._process_file] *)
Definition _process_file (root_path : path) (file : string) : PyST W bool :=
  let file_path := (root_path ++ [file])%list in
  file_time <- os_path_getmtime file_path ;;
  py_try
    (outdated <- is_object_outdated_st file_time file ;;
     if outdated
     then download_file get_bucket file_path (get_destination_path file) ;;
          py_ret true
     else py_ret false)
    download_error
    (fun _ => emit (EvLogException "failed to download file" file) ;; py_ret false).

(** The body of the inner loop of [poll], for one name of [files]. *)
Definition poll_file (root : path) (notification_needed : bool) (file : string)
  : PyST W bool :=
  let file_name := basename file in
  if negb (bool_decide (file_name ∈ allowed_files cfg))
  then emit (EvLogInfo "skipped file" file_name) ;; py_ret notification_needed
  else changed <- _process_file root file_name ;;
       py_ret (notification_needed || changed).

(** [LocalResourceHandler.poll] *)
Definition poll : PyST W unit :=
  w <- py_get ;;
  if negb (os_path_exists (w_fs w) (app_location_path cfg))
  then emit (EvLogError "path does not exist" (app_location_path cfg))
  else
    notification_needed <-
      py_fold (fun acc '(root, files) => py_fold (poll_file root) files acc)
              (os_walk (w_fs w) (app_location_path cfg)) false ;;
    if notification_needed then notify_executor else py_ret tt.

(** ** The abstract specification of a poll

    A single pass over the names the walk lists, in order: names not
    allowed are skipped; for an allowed name the modification time is
    read (a failure ends the pass), the base decides whether the object
    is outdated, and an outdated file is copied to its destination
    unless the copy fails with an error the handler catches.  The pass
    reports whether it ran to the end, the base's state, the destination
    and the copies made, in order. *)

Inductive copy_outcome := CopyOk (content : string) | CopyFail (e : exc).

Definition stat_spec (fs : fs_node) (p : path) : option Z :=
  match fs_lookup fs p with
  | Some (FsFile m) => f_mtime m
  | Some (FsDir t _) => Some t
  | None => None
  end.

(** The regular file at [p], if there is one. *)
Definition file_at (fs : fs_node) (p : path) : option file_meta :=
  match fs_lookup fs p with Some (FsFile m) => Some m | _ => None end.

Definition copy_spec (fs : fs_node) (writable : bool) (p : path) (d : string)
  : copy_outcome :=
  match fs_lookup fs p with
  | None => CopyFail (FileNotFoundError (path_str p))
  | Some (FsDir _ _) => CopyFail (IsADirectoryError (path_str p))
  | Some (FsFile m) =>
      if negb (f_readable m) then CopyFail (PermissionError (path_str p))
      else if bool_decide (f_mtime m = None)
      then CopyFail (FileNotFoundError (path_str p))
      else if negb writable then CopyFail (PermissionError d)
      else CopyOk (f_content m)
  end.

(** One name of the walk: go on with a new base state and destination,
    having copied a file or not, or stop the pass. *)
Inductive item_out :=
| ItemNext (s : σ) (dest : gmap string string) (copied : option (path * string))
| ItemStop (s : σ).

Definition sync_item (fs : fs_node) (writable : bool) (s : σ)
  (dest : gmap string string) (it : path * string) : item_out :=
  let '(root, f) := it in
  let n := basename f in
  if bool_decide (n ∈ allowed_files cfg) then
    let p := (root ++ [n])%list in
    match stat_spec fs p with
    | None => ItemStop s
    | Some t =>
        let '(b, s1) := is_object_outdated t n s in
        if b then
          let d := get_destination_path n in
          match copy_spec fs writable p d with
          | CopyOk c => ItemNext s1 (<[d := c]> dest) (Some (p, d))
          | CopyFail e => if download_error e then ItemNext s1 dest None else ItemStop s1
          end
        else ItemNext s1 dest None
    end
  else ItemNext s dest None.

Record sync_out := SyncOut {
  so_done : bool;
  so_base : σ;
  so_dest : gmap string string;
  so_copied : list (path * string)
}.

Fixpoint sync_spec (fs : fs_node) (writable : bool) (s : σ)
  (dest : gmap string string) (items : list (path * string)) : sync_out :=
  match items with
  | [] => SyncOut true s dest []
  | it :: items' =>
      match sync_item fs writable s dest it with
      | ItemNext s1 d1 c =>
          let o := sync_spec fs writable s1 d1 items' in
          SyncOut (so_done o) (so_base o) (so_dest o) (option_list c ++ so_copied o)
      | ItemStop s1 => SyncOut false s1 dest []
      end
  end.

(** The names the walk of the configured root lists, with their
    directory. *)
Definition walk_items (fs : fs_node) : list (path * string) :=
  flat_map (fun '(root, files) => map (pair root) files)
           (os_walk fs (app_location_path cfg)).

(** The allowed basenames of [items], in order. *)
Definition allowed_names (items : list (path * string)) : list string :=
  filter (fun n => n ∈ allowed_files cfg) (map (fun it => basename it.2) items).

Definition copy_events (evs : list event) : list (path * string) :=
  omap (fun e => match e with EvCopy src dst => Some (src, dst) | _ => None end) evs.

Definition notify_count (evs : list event) : nat :=
  length (filter (fun e => e = EvNotify) evs).

End Handler.

(** ** The base class, from the spec

    [ResourceHandler] keeps the last known modification time of each
    object: an object is outdated when it has no record or its time is
    strictly newer than the record, and the check records the newer time.
    The destination of an object is its name under the destination
    directory. *)

Definition last_seen_outdated (t : Z) (n : string) (s : gmap string Z)
  : bool * gmap string Z :=
  match s !! n with
  | Some t0 => if Z.ltb t0 t then (true, <[n := t]> s) else (false, s)
  | None => (true, <[n := t]> s)
  end.

Definition last_seen_destination (dest_dir n : string) : string :=
  dest_dir ++ "/" ++ n.

#[export] Instance last_seen_base (dest_dir : string)
  : ResourceHandlerBase (gmap string Z) := {|
  is_object_outdated := last_seen_outdated;
  get_destination_path := last_seen_destination dest_dir
|}.

(** ** Facts about a handler over any base *)

Section HandlerFacts.
Context {σ : Type} `{!ResourceHandlerBase σ}.
Variable cfg : handler_config.
Local Open Scope py_scope.
Local Open Scope list_scope.

Lemma copy_events_app evs1 evs2 :
  copy_events (evs1 ++ evs2) = copy_events evs1 ++ copy_events evs2.
Proof. apply omap_app. Qed.

Lemma notify_count_app evs1 evs2 :
  notify_count (evs1 ++ evs2) = notify_count evs1 + notify_count evs2.
Proof. unfold notify_count. by rewrite filter_app, length_app. Qed.

(** Close a goal of [poll_file_run] once the events are known. *)
Local Ltac run_finish evs :=
  simpl; split; [done|]; split; [done|]; exists evs;
  rewrite ?app_nil_r, ?orb_false_r, ?orb_true_r; split_and!; try done.

Lemma os_path_getmtime_run p (w : world σ) :
  os_path_getmtime p w =
  match stat_spec (w_fs w) p with
  | Some t => (Ok t, w)
  | None => (Err (FileNotFoundError (path_str p)), w)
  end.
Proof.
  unfold os_path_getmtime, stat_spec.
  by destruct (fs_lookup (w_fs w) p) as [[[[t|] ? ?]|? ?]|].
Qed.

Lemma download_file_run b p d (w : world σ) :
  download_file b p d w =
  match copy_spec (w_fs w) (w_dest_writable w) p d with
  | CopyOk c => (Ok tt, mkWorld (w_fs w) (<[d := c]> (w_dest w))
                                (w_dest_writable w) (w_base w)
                                (w_trace w ++ [EvCopy p d]))
  | CopyFail e => (Err e, w)
  end.
Proof.
  unfold download_file, _download_file, shutil_copy, copy_spec.
  destruct (fs_lookup (w_fs w) p) as [[m|? ?]|]; [|done|done].
  destruct (f_readable m), (f_mtime m), (w_dest_writable w); done.
Qed.

(** One iteration of the inner loop of [poll] performs the step
    [sync_item] prescribes, adds only log and copy events to the trace,
    and never touches the tree. *)
Lemma poll_file_run root acc f (w : world σ) r w' :
  poll_file cfg root acc f w = (r, w') ->
  w_fs w' = w_fs w /\ w_dest_writable w' = w_dest_writable w /\
  exists evs, w_trace w' = w_trace w ++ evs /\ notify_count evs = 0 /\
  match sync_item cfg (w_fs w) (w_dest_writable w) (w_base w) (w_dest w) (root, f) with
  | ItemNext s1 d1 c =>
      r = Ok (acc || bool_decide (is_Some c)) /\ w_base w' = s1 /\
      w_dest w' = d1 /\ copy_events evs = option_list c
  | ItemStop s1 =>
      (exists e, r = Err e) /\ w_base w' = s1 /\ w_dest w' = w_dest w /\
      copy_events evs = []
  end.
Proof.
  unfold poll_file, sync_item. destruct w as [fs dest wr base tr]; simpl.
  case_bool_decide as Hal; simpl.
  2:{ intros [= <- <-]. run_finish [EvLogInfo "skipped file"%string (basename f)]. }
  unfold _process_file, py_bind at 1. unfold py_bind at 1.
  rewrite os_path_getmtime_run. simpl.
  destruct (stat_spec fs (root ++ [basename f])) as [t|].
  2:{ intros [= <- <-]. run_finish (@nil event). eauto. }
  unfold py_try, py_bind, is_object_outdated_st. simpl.
  destruct (is_object_outdated t (basename f) base) as [[|] s1]; simpl.
  - rewrite download_file_run. simpl.
    destruct (copy_spec fs wr _ _) as [c|e]; simpl.
    + intros [= <- <-].
      run_finish [EvCopy (root ++ [basename f]) (get_destination_path (basename f))].
    + destruct (download_error e); simpl; intros [= <- <-].
      * run_finish [EvLogException "failed to download file"%string (basename f)].
      * run_finish (@nil event). eauto.
  - intros [= <- <-]. run_finish (@nil event).
Qed.

(** The loop of [poll] runs the abstract pass [sync_spec] over the names
    it visits. *)
Lemma poll_loop_run items acc (w : world σ) r w' :
  py_fold (fun acc '(root, f) => poll_file cfg root acc f) items acc w = (r, w') ->
  let o := sync_spec cfg (w_fs w) (w_dest_writable w) (w_base w) (w_dest w) items in
  w_fs w' = w_fs w /\ w_dest_writable w' = w_dest_writable w /\
  w_base w' = so_base o /\ w_dest w' = so_dest o /\
  (if so_done o then r = Ok (acc || bool_decide (so_copied o <> []))
   else exists e, r = Err e) /\
  exists evs, w_trace w' = w_trace w ++ evs /\ notify_count evs = 0 /\
              copy_events evs = so_copied o.
Proof.
  revert acc w r w'. induction items as [|[root f] items IH]; intros acc w r w' Hrun.
  { simpl in *. injection Hrun as <- <-. rewrite orb_false_r.
    split_and!; try done. exists []. by rewrite app_nil_r. }
  simpl in Hrun. unfold py_bind in Hrun.
  destruct (poll_file cfg root acc f w) as [r1 w1] eqn:Hstep.
  apply poll_file_run in Hstep as (Hfs & Hwr & evs1 & Htr & Hn1 & Hit).
  cbn [sync_spec].
  destruct (sync_item cfg (w_fs w) (w_dest_writable w) (w_base w) (w_dest w) (root, f))
    as [s1 d1 c|s1]; cbn [so_done so_base so_dest so_copied].
  - destruct Hit as (-> & Hb & Hd & Hc1).
    apply IH in Hrun as (Hfs' & Hwr' & Hb' & Hd' & Hr & evs2 & Htr' & Hn2 & Hc2).
    rewrite Hfs, Hwr, Hb, Hd in *.
    split_and!; try congruence.
    + destruct (so_done _); [|done]. rewrite Hr, <- orb_assoc. do 2 f_equal.
      destruct c; simpl; done.
    + exists (evs1 ++ evs2). rewrite Htr', Htr, app_assoc, notify_count_app,
        copy_events_app, Hn1, Hn2, Hc1, Hc2. done.
  - destruct Hit as ((e & ->) & Hb & Hd & Hc1). injection Hrun as <- <-.
    split_and!; try done. by exists e. by exists evs1.
Qed.

Lemma poll_unfold (w : world σ) :
  poll cfg w =
  if os_path_exists (w_fs w) (app_location_path cfg)
  then py_bind (py_fold (fun acc '(root, f) => poll_file cfg root acc f)
                        (walk_items cfg (w_fs w)) false)
               (fun nn => if nn then notify_executor else py_ret tt) w
  else emit (EvLogError "path does not exist"%string (app_location_path cfg)) w.
Proof.
  unfold poll, py_bind at 1, py_get. simpl.
  destruct (os_path_exists _ _); [|done]. simpl.
  apply py_bind_ext_l. intros s'. apply py_fold_flat_map.
Qed.

(** [poll] as a whole: a missing root is logged; otherwise the pass of
    [sync_spec] over the walk, then one notification when it ran to the
    end and copied something. *)
Lemma poll_run (w : world σ) r w' :
  poll cfg w = (r, w') ->
  if os_path_exists (w_fs w) (app_location_path cfg) then
    let o := sync_spec cfg (w_fs w) (w_dest_writable w) (w_base w) (w_dest w)
                       (walk_items cfg (w_fs w)) in
    w_fs w' = w_fs w /\ w_dest_writable w' = w_dest_writable w /\
    w_base w' = so_base o /\ w_dest w' = so_dest o /\
    (if so_done o then r = Ok tt else exists e, r = Err e) /\
    exists evs, w_trace w' = w_trace w ++ evs /\ copy_events evs = so_copied o /\
      notify_count evs = (if so_done o && bool_decide (so_copied o <> []) then 1 else 0)
  else r = Ok tt /\
       w' = mkWorld (w_fs w) (w_dest w) (w_dest_writable w) (w_base w)
                    (w_trace w ++ [EvLogError "path does not exist"%string
                                                (app_location_path cfg)]).
Proof.
  rewrite poll_unfold. destruct (os_path_exists _ _); [|by intros [= <- <-]].
  unfold py_bind.
  destruct (py_fold _ _ _ w) as [r1 w1] eqn:Hloop.
  apply poll_loop_run in Hloop as (Hfs & Hwr & Hb & Hd & Hr & evs & Htr & Hn & Hc).
  simpl. destruct (so_done _).
  - rewrite Hr. simpl. case_bool_decide as Hne; simpl; intros [= <- <-]; simpl.
    + split_and!; try done. exists (evs ++ [EvNotify]).
      rewrite Htr, app_assoc, copy_events_app, notify_count_app, Hn, Hc.
      simpl. by rewrite app_nil_r.
    + split_and!; try done. by exists evs.
  - destruct Hr as [e ->]. intros [= <- <-].
    split_and!; try done. by exists e. by exists evs.
Qed.

(** ** Facts about the abstract pass *)

(** An allowed name whose path is a regular file with a readable
    modification time, or a name the allow list rejects. *)
Definition stat_ok_item (fs : fs_node) (it : path * string) : bool :=
  let '(root, f) := it in
  negb (bool_decide (basename f ∈ allowed_files cfg)) ||
  match fs_lookup fs (root ++ [basename f]) with
  | Some (FsFile m) => bool_decide (is_Some (f_mtime m))
  | _ => false
  end.

Definition stat_ok (fs : fs_node) (items : list (path * string)) : Prop :=
  Forall (fun it => stat_ok_item fs it = true) items.

Lemma sync_item_copied fs wr s dest root f s1 d1 src dst :
  sync_item cfg fs wr s dest (root, f) = ItemNext s1 d1 (Some (src, dst)) ->
  src = root ++ [basename f] /\ basename f ∈ allowed_files cfg /\
  dst = get_destination_path (basename f).
Proof.
  unfold sync_item. case_bool_decide; [|done].
  destruct (stat_spec _ _); [|done].
  destruct (is_object_outdated _ _ _) as [[|] s1']; [|done].
  destruct (copy_spec _ _ _ _); [by intros [= _ _ <- <-]|].
  by destruct (download_error _).
Qed.

Lemma sync_item_stop_stat fs wr s dest root f s1 :
  sync_item cfg fs wr s dest (root, f) = ItemStop s1 ->
  basename f ∈ allowed_files cfg /\
  (stat_spec fs (root ++ [basename f]) = None \/
   exists d, is_Some (stat_spec fs (root ++ [basename f])) /\
     exists e, copy_spec fs wr (root ++ [basename f]) d = CopyFail e /\
               download_error e = false).
Proof.
  unfold sync_item. case_bool_decide; [|done]. split; [done|].
  destruct (stat_spec _ _); [|by left]. right.
  destruct (is_object_outdated _ _ _) as [[|] s1']; [|done].
  eexists. split; [done|].
  destruct (copy_spec _ _ _ _) as [|e] eqn:Hc; [done|]. exists e.
  by destruct (download_error e).
Qed.

Lemma copy_spec_file_caught fs wr p d m :
  fs_lookup fs p = Some (FsFile m) ->
  match copy_spec fs wr p d with CopyOk _ => True | CopyFail e => download_error e = true end.
Proof.
  unfold copy_spec. intros ->.
  destruct (f_readable m), (f_mtime m), wr; done.
Qed.

Lemma sync_spec_copied fs wr s dest items src dst :
  (src, dst) ∈ so_copied (sync_spec cfg fs wr s dest items) ->
  exists root f, (root, f) ∈ items /\ src = root ++ [basename f] /\
    basename f ∈ allowed_files cfg /\ dst = get_destination_path (basename f).
Proof.
  revert s dest. induction items as [|[root f] items IH]; intros s dest; cbn [sync_spec].
  { by intros ?%elem_of_nil. }
  destruct (sync_item cfg fs wr s dest (root, f)) as [s1 d1 c|s1] eqn:Hi; cbn [so_copied so_done]; [|by intros ?%elem_of_nil].
  intros [Hc|Hrest]%elem_of_app.
  - destruct c as [[src' dst']|]; simpl in Hc; [|by apply elem_of_nil in Hc].
    apply list_elem_of_singleton in Hc as [= -> ->].
    apply sync_item_copied in Hi. exists root, f. split; [by left|done].
  - destruct (IH _ _ Hrest) as (root' & f' & Hin & ?). exists root', f'.
    split; [by right|done].
Qed.

(** An item whose stat succeeds never stops the pass: copy failures on
    a regular file are the ones the handler catches. *)
Lemma sync_item_stat_ok fs wr s dest it :
  stat_ok_item fs it = true ->
  exists s1 d1 c, sync_item cfg fs wr s dest it = ItemNext s1 d1 c.
Proof.
  destruct it as [root f]. intros Hok.
  destruct (sync_item cfg fs wr s dest (root, f)) as [s1 d1 c|s1] eqn:Hi; [by eauto|].
  apply sync_item_stop_stat in Hi as [Hal Hst]. simpl in Hok.
  rewrite bool_decide_true in Hok by done. simpl in Hok.
  unfold stat_spec in Hst. destruct (fs_lookup fs _) as [[m|]|] eqn:Hl; try done.
  destruct (f_mtime m) as [t|] eqn:Ht; [|done].
  destruct Hst as [|(d & _ & e & Hc & He)]; [done|].
  pose proof (copy_spec_file_caught fs wr _ d m Hl) as Hcaught.
  rewrite Hc in Hcaught. congruence.
Qed.

Lemma sync_spec_done fs wr s dest items :
  stat_ok fs items -> so_done (sync_spec cfg fs wr s dest items) = true.
Proof.
  revert s dest. induction items as [|it items IH]; intros s dest Hok; [done|].
  apply Forall_cons in Hok as [Hhd Htl].
  destruct (sync_item_stat_ok fs wr s dest it Hhd) as (s1 & d1 & c & Hi).
  cbn [sync_spec]. rewrite Hi. by apply IH.
Qed.

(** A step on a name whose destination is not [k] leaves [k] alone. *)
Lemma sync_item_dest_other fs wr s dest root f s1 d1 c k :
  sync_item cfg fs wr s dest (root, f) = ItemNext s1 d1 c ->
  (basename f ∈ allowed_files cfg -> get_destination_path (basename f) <> k) ->
  d1 !! k = dest !! k.
Proof.
  unfold sync_item. case_bool_decide as Hal; [|by intros [= _ <- _]].
  intros Hi Hk. destruct (stat_spec _ _); [|done].
  destruct (is_object_outdated _ _ _) as [[|] s1']; [|by injection Hi as _ <- _].
  destruct (copy_spec _ _ _ _) as [cc|e].
  - injection Hi as _ <- _. rewrite lookup_insert_ne; [done|]. by apply Hk.
  - destruct (download_error e); [by injection Hi as _ <- _|done].
Qed.

Lemma sync_spec_dest_other fs wr s dest items k :
  (forall root f, (root, f) ∈ items -> basename f ∈ allowed_files cfg ->
     get_destination_path (basename f) <> k) ->
  so_dest (sync_spec cfg fs wr s dest items) !! k = dest !! k.
Proof.
  revert s dest. induction items as [|[root f] items IH]; intros s dest Hk; [done|].
  cbn [sync_spec].
  destruct (sync_item cfg fs wr s dest (root, f)) as [s1 d1 c|s1] eqn:Hi; [|done].
  cbn [so_dest]. rewrite IH by (intros r' f' Hin; apply (Hk r'); by right).
  eapply sync_item_dest_other; [done|]. apply (Hk root). by left.
Qed.

Lemma copy_spec_ok fs wr p d c :
  copy_spec fs wr p d = CopyOk c ->
  exists m, file_at fs p = Some m /\ f_readable m = true /\ c = f_content m.
Proof.
  unfold copy_spec, file_at. destruct (fs_lookup fs p) as [[m|? ?]|]; [|done|done].
  destruct (f_readable m) eqn:Hr, (f_mtime m), wr; simpl; try done.
  intros [= <-]. by exists m.
Qed.

(** What a step writes: the copied file's content at its destination,
    and nothing when it copies nothing. *)
Lemma sync_item_dest fs wr s dest it s1 d1 c :
  sync_item cfg fs wr s dest it = ItemNext s1 d1 c ->
  match c with
  | Some (src, dst) => exists m, file_at fs src = Some m /\ f_readable m = true /\
                                 d1 = <[dst := f_content m]> dest
  | None => d1 = dest
  end.
Proof.
  destruct it as [root f]. unfold sync_item.
  case_bool_decide; [|by intros [= _ <- <-]].
  destruct (stat_spec _ _); [|done].
  destruct (is_object_outdated _ _ _) as [[|] s1']; [|by intros [= _ <- <-]].
  destruct (copy_spec _ _ _ _) as [cc|e] eqn:Hc.
  - intros [= _ <- <-]. apply copy_spec_ok in Hc as (m & Hm & Hr & ->). by exists m.
  - destruct (download_error e); [by intros [= _ <- <-]|done].
Qed.

(** After a pass, each path holds what the last copy to it wrote, or
    what it held before when nothing was copied there. *)
Lemma sync_spec_dest_last fs wr s dest items d :
  so_dest (sync_spec cfg fs wr s dest items) !! d =
  match last (filter (fun c => c.2 = d) (so_copied (sync_spec cfg fs wr s dest items))) with
  | Some (src, _) => f_content <$> file_at fs src
  | None => dest !! d
  end.
Proof.
  revert s dest. induction items as [|it items IH]; intros s dest; [done|].
  cbn [sync_spec].
  destruct (sync_item cfg fs wr s dest it) as [s1 d1 c|s1] eqn:Hi;
    cbn [so_dest so_copied]; [|done].
  rewrite IH, filter_app, last_app.
  destruct (last (filter _ (so_copied _))) as [[src' ?]|]; [done|].
  apply sync_item_dest in Hi. destruct c as [[src dst]|]; simpl; [|by subst].
  destruct Hi as (m & Hm & _ & ->). rewrite filter_cons, filter_nil.
  case_decide as Hd; simpl in *.
  - subst. by rewrite lookup_insert_eq, Hm.
  - by rewrite lookup_insert_ne.
Qed.

Lemma sync_spec_copied_file fs wr s dest items src dst :
  (src, dst) ∈ so_copied (sync_spec cfg fs wr s dest items) ->
  exists m, file_at fs src = Some m /\ f_readable m = true.
Proof.
  revert s dest. induction items as [|it items IH]; intros s dest; cbn [sync_spec].
  { by intros ?%elem_of_nil. }
  destruct (sync_item cfg fs wr s dest it) as [s1 d1 c|s1] eqn:Hi;
    cbn [so_copied]; [|by intros ?%elem_of_nil].
  intros [Hc|Hrest]%elem_of_app; [|by eapply IH].
  apply sync_item_dest in Hi.
  destruct c as [[src' dst']|]; simpl in Hc; [|by apply elem_of_nil in Hc].
  apply list_elem_of_singleton in Hc as [= -> ->].
  destruct Hi as (m & Hm & Hr & _). by exists m.
Qed.

Lemma sync_spec_stat_fail fs wr s dest items root f :
  (root, f) ∈ items -> basename f ∈ allowed_files cfg ->
  stat_spec fs (root ++ [basename f]) = None ->
  so_done (sync_spec cfg fs wr s dest items) = false.
Proof.
  revert s dest. induction items as [|[root' f'] items IH]; intros s dest Hin Hal Hst.
  { by apply elem_of_nil in Hin. }
  cbn [sync_spec]. destruct (sync_item cfg fs wr s dest (root', f')) as [s1 d1 c|s1] eqn:Hi; [|done]. cbn [so_done].
  apply elem_of_cons in Hin as [[= -> ->]|Hin]; [|by eapply IH].
  unfold sync_item in Hi. rewrite bool_decide_true, Hst in Hi by done. done.
Qed.

Lemma sync_spec_none_allowed fs wr s dest items :
  Forall (fun '(root, f) => basename f ∉ allowed_files cfg) items ->
  sync_spec cfg fs wr s dest items = SyncOut true s dest [].
Proof.
  revert s dest. induction items as [|[root f] items IH]; intros s dest Hno; [done|].
  apply Forall_cons in Hno as [Hhd Htl].
  cbn [sync_spec]. unfold sync_item at 1. rewrite bool_decide_false by done. simpl.
  by rewrite IH.
Qed.

Lemma elem_of_allowed_names items root f :
  (root, f) ∈ items -> basename f ∈ allowed_files cfg ->
  basename f ∈ allowed_names cfg items.
Proof.
  intros Hin Hal. unfold allowed_names. apply list_elem_of_filter. split; [done|].
  apply list_elem_of_fmap. by exists (root, f).
Qed.

Lemma allowed_names_cons_NoDup root f items :
  NoDup (allowed_names cfg ((root, f) :: items)) ->
  NoDup (allowed_names cfg items) /\
  (basename f ∈ allowed_files cfg -> basename f ∉ allowed_names cfg items).
Proof.
  unfold allowed_names. cbn [map]. rewrite filter_cons. cbn [snd].
  destruct (decide (basename f ∈ allowed_files cfg)) as [Ha|Ha].
  - intros [Hn Hnd]%NoDup_cons. by split.
  - intros Hnd. by split.
Qed.

Lemma elem_of_copy_events src dst evs :
  EvCopy src dst ∈ evs <-> (src, dst) ∈ copy_events evs.
Proof.
  unfold copy_events. rewrite list_elem_of_omap. split.
  - intros Hin. by exists (EvCopy src dst).
  - intros ([] & Hin & Heq); simplify_eq; done.
Qed.

Lemma walk_items_root_exists fs root f :
  (root, f) ∈ walk_items cfg fs -> os_path_exists fs (app_location_path cfg) = true.
Proof.
  unfold walk_items, os_walk, os_path_exists.
  destruct (fs_lookup fs _) as [[|]|]; simpl; [by intros ?%elem_of_nil| |by intros ?%elem_of_nil].
  intros _. first [done | by apply bool_decide_true].
Qed.

(** ** Properties of [poll] over any base *)

(** C8. When the configured root does not exist, [poll] logs the error
    and returns normally, copying nothing and notifying no one. *)
Theorem poll_missing_root (w : world σ) :
  os_path_exists (w_fs w) (app_location_path cfg) = false ->
  poll cfg w = (Ok tt, mkWorld (w_fs w) (w_dest w) (w_dest_writable w) (w_base w)
                  (w_trace w ++ [EvLogError "path does not exist"%string
                                             (app_location_path cfg)])).
Proof. intros Hex. rewrite poll_unfold, Hex. reflexivity. Qed.

(** C3. [poll] notifies the executor at most once, and exactly when it
    returns normally after copying at least one file. *)
Theorem poll_notifies_once_iff_copied (w : world σ) r w' :
  poll cfg w = (r, w') ->
  exists evs, w_trace w' = w_trace w ++ evs /\
    notify_count evs =
      (if bool_decide (r = Ok tt) && bool_decide (copy_events evs <> []) then 1 else 0).
Proof.
  intros Hrun%poll_run. destruct (os_path_exists _ _).
  - destruct Hrun as (_ & _ & _ & _ & Hr & evs & Htr & Hc & Hn).
    exists evs. split; [done|]. rewrite Hn, Hc.
    destruct (so_done _).
    + rewrite Hr, (bool_decide_true (Ok tt = Ok tt)); done.
    + destruct Hr as [e ->]. rewrite (bool_decide_false (Err e = Ok tt)); done.
  - destruct Hrun as [-> ->]. by eexists.
Qed.

(** C1. [poll] refines the abstract pass [sync_spec]: it returns normally
    exactly when the pass runs to the end, leaves the base's state and
    the destination as the pass does, copies the files the pass copies,
    in the same order, and then notifies once if there was any. *)
Theorem poll_refines_sync_spec (w : world σ) r w' :
  os_path_exists (w_fs w) (app_location_path cfg) = true ->
  poll cfg w = (r, w') ->
  let o := sync_spec cfg (w_fs w) (w_dest_writable w) (w_base w) (w_dest w)
                     (walk_items cfg (w_fs w)) in
  (r = Ok tt <-> so_done o = true) /\ w_fs w' = w_fs w /\
  w_base w' = so_base o /\ w_dest w' = so_dest o /\
  exists evs, w_trace w' = w_trace w ++ evs /\ copy_events evs = so_copied o /\
    notify_count evs = (if so_done o && bool_decide (so_copied o <> []) then 1 else 0).
Proof.
  intros Hex Hrun%poll_run. rewrite Hex in Hrun.
  destruct Hrun as (Hfs & _ & Hb & Hd & Hr & Hevs). split_and!; try done.
  destruct (so_done _); [done|]. destruct Hr as [e ->]. done.
Qed.

(** C4. Every file [poll] copies is a name of the walk that the allow
    list admits, copied from its path under its directory to the
    destination of that name. *)
Theorem poll_copies_only_allowed (w : world σ) r w' :
  poll cfg w = (r, w') ->
  exists evs, w_trace w' = w_trace w ++ evs /\
    forall src dst, EvCopy src dst ∈ evs ->
    exists root f, (root, f) ∈ walk_items cfg (w_fs w) /\
      src = root ++ [basename f] /\ basename f ∈ allowed_files cfg /\
      dst = get_destination_path (basename f).
Proof.
  intros Hrun%poll_run. destruct (os_path_exists _ _).
  - destruct Hrun as (_ & _ & _ & _ & _ & evs & Htr & Hc & _).
    exists evs. split; [done|]. intros src dst Hin%elem_of_copy_events.
    rewrite Hc in Hin. by eapply sync_spec_copied.
  - destruct Hrun as [-> ->]. eexists. split; [done|].
    intros src dst [Hin|Hin]%elem_of_cons; [done|by apply elem_of_nil in Hin].
Qed.

(** C5. Copy failures do not escape: when every allowed name of the walk
    is a regular file whose modification time can be read, [poll] returns
    normally, whatever [shutil.copy] raises ([FileNotFoundError],
    [PermissionError] on the source or the destination). *)
Theorem poll_completes_when_stat_ok (w : world σ) r w' :
  stat_ok (w_fs w) (walk_items cfg (w_fs w)) ->
  poll cfg w = (r, w') -> r = Ok tt.
Proof.
  intros Hok Hrun%poll_run. destruct (os_path_exists _ _); [|by destruct Hrun].
  destruct Hrun as (_ & _ & _ & _ & Hr & _). by rewrite sync_spec_done in Hr.
Qed.

(** C6. [os.path.getmtime] is called outside the [try]: when an allowed
    name of the walk has no readable modification time (a dangling
    link), [poll] raises, and the executor is not notified, even of the
    files it copied before. *)
Theorem poll_stat_failure_escapes (w : world σ) r w' root f :
  (root, f) ∈ walk_items cfg (w_fs w) -> basename f ∈ allowed_files cfg ->
  stat_spec (w_fs w) (root ++ [basename f]) = None ->
  poll cfg w = (r, w') ->
  (exists e, r = Err e) /\
  exists evs, w_trace w' = w_trace w ++ evs /\ notify_count evs = 0.
Proof.
  intros Hin Hal Hst Hrun%poll_run.
  rewrite (walk_items_root_exists _ _ _ Hin) in Hrun.
  destruct Hrun as (_ & _ & _ & _ & Hr & evs & Htr & _ & Hn).
  rewrite (sync_spec_stat_fail _ _ _ _ _ _ _ Hin Hal Hst) in Hr, Hn.
  split; [done|]. by exists evs.
Qed.

(** C16. When the allow list admits no name of the walk, [poll] returns
    normally, copies nothing, notifies no one and leaves the base's state
    unchanged. *)
Theorem poll_no_allowed_files (w : world σ) r w' :
  Forall (fun '(root, f) => basename f ∉ allowed_files cfg) (walk_items cfg (w_fs w)) ->
  poll cfg w = (r, w') ->
  r = Ok tt /\ w_dest w' = w_dest w /\ w_base w' = w_base w /\
  exists evs, w_trace w' = w_trace w ++ evs /\ copy_events evs = [] /\ notify_count evs = 0.
Proof.
  intros Hno Hrun%poll_run. destruct (os_path_exists _ _).
  - rewrite sync_spec_none_allowed in Hrun by done.
    destruct Hrun as (_ & _ & Hb & Hd & Hr & evs & Htr & Hc & Hn).
    cbn [so_done so_base so_dest so_copied andb] in *.
    rewrite bool_decide_false in Hn by naive_solver.
    split_and!; try done. by exists evs.
  - destruct Hrun as [-> ->]. simpl. split_and!; try done. by eexists.
Qed.


End HandlerFacts.

(** ** Facts about the handler over the last-seen base *)

Section LastSeenFacts.
Variable dest_dir : string.
#[local] Instance ls_base : ResourceHandlerBase (gmap string Z) :=
  last_seen_base dest_dir.
Variable cfg : handler_config.
Local Open Scope list_scope.

Implicit Types (s : gmap string Z) (fs : fs_node).

Lemma last_seen_mono t n s b s' k t0 :
  last_seen_outdated t n s = (b, s') -> s !! k = Some t0 ->
  exists t1, s' !! k = Some t1 /\ (t0 <= t1)%Z.
Proof.
  unfold last_seen_outdated. intros Hs Hk.
  destruct (s !! n) as [tn|] eqn:Hn; [destruct (Z.ltb_spec tn t)|];
    injection Hs as <- <-; try (exists t0; split; [done|lia]);
    (destruct (decide (k = n)) as [->|Hne];
     [rewrite lookup_insert_eq; exists t; split; [done|congruence || lia]
     |rewrite lookup_insert_ne by done; exists t0; split; [done|lia]]).
Qed.

Lemma last_seen_records t n s b s' :
  last_seen_outdated t n s = (b, s') -> exists t1, s' !! n = Some t1 /\ (t <= t1)%Z.
Proof.
  unfold last_seen_outdated. intros Hs.
  destruct (s !! n) as [tn|] eqn:Hn; [destruct (Z.ltb_spec tn t)|];
    injection Hs as <- <-; rewrite ?lookup_insert_eq; eexists; split; try done; lia.
Qed.

Lemma last_seen_true t n s s' :
  last_seen_outdated t n s = (true, s') -> forall t0, s !! n = Some t0 -> (t0 < t)%Z.
Proof.
  unfold last_seen_outdated. intros Hs t0 Hn. rewrite Hn in Hs.
  destruct (Z.ltb_spec t0 t); [done|discriminate].
Qed.

Lemma last_seen_dominated t n s t0 :
  s !! n = Some t0 -> (t <= t0)%Z -> last_seen_outdated t n s = (false, s).
Proof.
  unfold last_seen_outdated. intros Hn Ht. rewrite Hn.
  destruct (Z.ltb_spec t0 t); [lia|done].
Qed.

Definition item_base (o : item_out) : gmap string Z :=
  match o with ItemNext s _ _ => s | ItemStop s => s end.

Lemma sync_item_mono fs wr s dest it k t0 :
  s !! k = Some t0 ->
  exists t1, item_base (sync_item cfg fs wr s dest it) !! k = Some t1 /\ (t0 <= t1)%Z.
Proof.
  intros Hk. destruct it as [root f]. unfold sync_item.
  destruct (bool_decide _); [|by exists t0; split; [|lia]].
  destruct (stat_spec _ _) as [t|]; [|by exists t0; split; [|lia]].
  change (is_object_outdated t (basename f) s)
    with (last_seen_outdated t (basename f) s).
  destruct (last_seen_outdated t (basename f) s) as [b s1] eqn:Ho.
  destruct (last_seen_mono _ _ _ _ _ _ _ Ho Hk) as (t1 & Ht1 & Hle).
  destruct b; [destruct (copy_spec _ _ _ _) as [|e]; [|destruct (download_error e)]|];
    by exists t1.
Qed.

Lemma sync_spec_mono fs wr s dest items k t0 :
  s !! k = Some t0 ->
  exists t1, so_base (sync_spec cfg fs wr s dest items) !! k = Some t1 /\ (t0 <= t1)%Z.
Proof.
  revert s dest t0. induction items as [|it items IH]; intros s dest t0 Hk.
  { exists t0. simpl. split; [done|lia]. }
  destruct (sync_item_mono fs wr s dest it k t0 Hk) as (t1 & Ht1 & Hle).
  cbn [sync_spec]. destruct (sync_item cfg fs wr s dest it) as [s1 d1 c|s1]; simpl in *.
  - destruct (IH s1 d1 t1 Ht1) as (t2 & Ht2 & Hle2). exists t2. split; [done|lia].
  - by exists t1.
Qed.

(** Every allowed name of [items] has a record at least as recent as its
    file's modification time. *)
Definition dominates fs s (items : list (path * string)) : Prop :=
  forall root f, (root, f) ∈ items -> basename f ∈ allowed_files cfg ->
  exists t t0, stat_spec fs (root ++ [basename f]) = Some t /\
               s !! basename f = Some t0 /\ (t <= t0)%Z.

Lemma sync_item_next_records fs wr s dest root f s1 d1 c :
  sync_item cfg fs wr s dest (root, f) = ItemNext s1 d1 c ->
  basename f ∈ allowed_files cfg ->
  exists t t1, stat_spec fs (root ++ [basename f]) = Some t /\
               s1 !! basename f = Some t1 /\ (t <= t1)%Z.
Proof.
  unfold sync_item. intros Hi Hal. rewrite bool_decide_true in Hi by done.
  destruct (stat_spec _ _) as [t|]; [|done].
  change (is_object_outdated t (basename f) s)
    with (last_seen_outdated t (basename f) s) in Hi.
  destruct (last_seen_outdated t (basename f) s) as [b s1'] eqn:Ho.
  destruct (last_seen_records _ _ _ _ _ Ho) as (t1 & Ht1 & Hle).
  exists t, t1. split; [done|].
  destruct b; [destruct (copy_spec _ _ _ _) as [|e]; [|destruct (download_error e)]|];
    first [discriminate | by injection Hi as <- _ _].
Qed.

Lemma sync_spec_dominates fs wr s dest items :
  so_done (sync_spec cfg fs wr s dest items) = true ->
  dominates fs (so_base (sync_spec cfg fs wr s dest items)) items.
Proof.
  revert s dest. induction items as [|[root f] items IH]; intros s dest Hdone.
  { intros r' f' Hin. by apply elem_of_nil in Hin. }
  cbn [sync_spec] in *.
  destruct (sync_item cfg fs wr s dest (root, f)) as [s1 d1 c|s1] eqn:Hi; [|done].
  cbn [so_done so_base] in *. intros r' f' [[= -> ->]|Hin]%elem_of_cons Hal.
  - destruct (sync_item_next_records _ _ _ _ _ _ _ _ _ Hi Hal) as (t & t1 & Ht & Ht1 & Hle).
    destruct (sync_spec_mono fs wr s1 d1 items _ _ Ht1) as (t2 & Ht2 & Hle2).
    exists t, t2. split_and!; [done|done|lia].
  - by apply IH.
Qed.

(** A name whose record is at least as recent as its file is skipped
    without any change. *)
Lemma sync_item_dominated_noop fs wr s dest root f :
  (basename f ∈ allowed_files cfg ->
   exists t t0, stat_spec fs (root ++ [basename f]) = Some t /\
                s !! basename f = Some t0 /\ (t <= t0)%Z) ->
  sync_item cfg fs wr s dest (root, f) = ItemNext s dest None.
Proof.
  intros Hdom. unfold sync_item. case_bool_decide as Hal; [|done].
  destruct (Hdom Hal) as (t & t0 & Ht & Ht0 & Hle). rewrite Ht. simpl.
  by rewrite (last_seen_dominated _ _ _ _ Ht0 Hle).
Qed.

Lemma sync_spec_dominated_noop fs wr s dest items :
  dominates fs s items -> sync_spec cfg fs wr s dest items = SyncOut true s dest [].
Proof.
  revert dest. induction items as [|[root f] items IH]; intros dest Hdom; [done|].
  cbn [sync_spec]. rewrite sync_item_dominated_noop.
  - rewrite IH; [done|]. intros r' f' Hin. apply Hdom. by right.
  - apply Hdom. by left.
Qed.

Lemma sync_item_copied_newer fs wr s dest root f s1 d1 src dst :
  sync_item cfg fs wr s dest (root, f) = ItemNext s1 d1 (Some (src, dst)) ->
  exists t, stat_spec fs (root ++ [basename f]) = Some t /\
    forall t0, s !! basename f = Some t0 -> (t0 < t)%Z.
Proof.
  unfold sync_item. intros Hi. destruct (bool_decide _); [|done].
  destruct (stat_spec _ _) as [t|]; [|done]. exists t. split; [done|].
  change (is_object_outdated t (basename f) s)
    with (last_seen_outdated t (basename f) s) in Hi.
  destruct (last_seen_outdated t (basename f) s) as [[|] s1'] eqn:Ho; [|done].
  intros t0. apply (last_seen_true _ _ _ _ Ho).
Qed.

Lemma sync_spec_copies_newer fs wr s dest items src dst :
  (src, dst) ∈ so_copied (sync_spec cfg fs wr s dest items) ->
  exists root f t, src = root ++ [basename f] /\ stat_spec fs src = Some t /\
    forall t0, s !! basename f = Some t0 -> (t0 < t)%Z.
Proof.
  revert s dest. induction items as [|[root f] items IH]; intros s dest; cbn [sync_spec].
  { by intros ?%elem_of_nil. }
  destruct (sync_item cfg fs wr s dest (root, f)) as [s1 d1 c|s1] eqn:Hi;
    cbn [so_copied]; [|by intros ?%elem_of_nil].
  intros [Hc|Hrest]%elem_of_app.
  - destruct c as [[src' dst']|]; simpl in Hc; [|by apply elem_of_nil in Hc].
    apply list_elem_of_singleton in Hc as [= -> ->].
    destruct (sync_item_copied_newer _ _ _ _ _ _ _ _ _ _ Hi) as (t & Ht & Hnew).
    apply sync_item_copied in Hi as (-> & _ & _). by exists root, f, t.
  - destruct (IH _ _ Hrest) as (root' & f' & t & -> & Ht & Hnew).
    exists root', f', t. split_and!; [done|done|]. intros t0 Ht0.
    pose proof (sync_item_mono fs wr s dest (root, f) _ _ Ht0) as (t1 & Ht1 & Hle).
    rewrite Hi in Ht1. simpl in Ht1. specialize (Hnew t1 Ht1). lia.
Qed.
Lemma last_seen_destination_inj n1 n2 :
  last_seen_destination dest_dir n1 = last_seen_destination dest_dir n2 -> n1 = n2.
Proof.
  unfold last_seen_destination. intros H%string_app_inj_l. by apply string_app_inj_l in H.
Qed.

Lemma last_seen_other t n s b s1 k :
  last_seen_outdated t n s = (b, s1) -> k <> n -> s1 !! k = s !! k.
Proof.
  unfold last_seen_outdated. intros Hs Hk.
  destruct (s !! n); [destruct (Z.ltb _ _)|]; injection Hs as <- <-;
    rewrite ?lookup_insert_ne by congruence; done.
Qed.

Lemma last_seen_outdated_fst t n s1 s2 :
  s1 !! n = s2 !! n -> (last_seen_outdated t n s1).1 = (last_seen_outdated t n s2).1.
Proof.
  unfold last_seen_outdated. intros ->. by destruct (s2 !! n); [destruct (Z.ltb _ _)|].
Qed.

Lemma sync_item_base_other fs wr s dest root f k :
  basename f <> k -> item_base (sync_item cfg fs wr s dest (root, f)) !! k = s !! k.
Proof.
  intros Hk. unfold sync_item. destruct (bool_decide _); [|done].
  destruct (stat_spec _ _) as [t|]; [|done].
  change (is_object_outdated t (basename f) s) with (last_seen_outdated t (basename f) s).
  destruct (last_seen_outdated t (basename f) s) as [b s1] eqn:Ho.
  pose proof (last_seen_other _ _ _ _ _ k Ho (not_eq_sym Hk)) as Hs1.
  destruct b; [destruct (copy_spec _ _ _ _) as [|e]; [|destruct (download_error e)]|];
    cbn [item_base]; done.
Qed.

(** A readable file the base finds outdated is copied to its
    destination when the destination is writable. *)
Lemma sync_item_mirror fs s dest root f m t :
  basename f ∈ allowed_files cfg ->
  fs_lookup fs (root ++ [basename f]) = Some (FsFile m) ->
  f_readable m = true -> f_mtime m = Some t ->
  (last_seen_outdated t (basename f) s).1 = true ->
  exists s1 c, sync_item cfg fs true s dest (root, f) =
    ItemNext s1 (<[last_seen_destination dest_dir (basename f) := f_content m]> dest) c.
Proof.
  intros Hal Hl Hr Ht Hnew. unfold sync_item. rewrite bool_decide_true by done.
  unfold stat_spec. rewrite Hl, Ht.
  change (is_object_outdated t (basename f) s) with (last_seen_outdated t (basename f) s).
  destruct (last_seen_outdated t (basename f) s) as [[|] s1]; [|done].
  unfold copy_spec. rewrite Hl, Hr, Ht. simpl. by eexists _, _.
Qed.

Lemma sync_spec_mirrors fs s dest items root f m t :
  NoDup (allowed_names cfg items) -> stat_ok cfg fs items ->
  (root, f) ∈ items -> basename f ∈ allowed_files cfg ->
  fs_lookup fs (root ++ [basename f]) = Some (FsFile m) ->
  f_readable m = true -> f_mtime m = Some t ->
  (last_seen_outdated t (basename f) s).1 = true ->
  so_dest (sync_spec cfg fs true s dest items) !! last_seen_destination dest_dir (basename f)
    = Some (f_content m).
Proof.
  intros Hnd Hok Hin Hal Hl Hr Ht. revert s dest Hnd Hok Hin.
  induction items as [|[root' f'] items IH]; intros s dest Hnd Hok Hin Hnew.
  { by apply elem_of_nil in Hin. }
  apply Forall_cons in Hok as [Hhd Htl].
  apply allowed_names_cons_NoDup in Hnd as [Hnd Hhead].
  destruct (sync_item_stat_ok cfg fs true s dest (root', f') Hhd) as (s1 & d1 & c & Hi).
  cbn [sync_spec]. rewrite Hi. cbn [so_dest].
  apply elem_of_cons in Hin as [[= <- <-]|Hin].
  - rewrite sync_spec_dest_other.
    + destruct (sync_item_mirror fs s dest root f m t) as (s1' & c' & Hi'); try done.
      rewrite Hi in Hi'. injection Hi' as _ -> _. apply lookup_insert_eq.
    + intros r g Hg Hag Heq%last_seen_destination_inj. apply (Hhead Hal).
      rewrite <- Heq. by eapply elem_of_allowed_names.
  - apply (IH s1 d1); try done.
    assert (Hne : basename f' <> basename f).
    { intros Heq. destruct (decide (basename f' ∈ allowed_files cfg)) as [Ha|Ha].
      - apply (Hhead Ha). rewrite Heq. by eapply elem_of_allowed_names.
      - by rewrite Heq in Ha. }
    pose proof (sync_item_base_other fs true s dest root' f' (basename f) Hne) as Hb.
    rewrite Hi in Hb. cbn [item_base] in Hb. by rewrite (last_seen_outdated_fst _ _ _ _ Hb).
Qed.

(** A poll of a tree whose allowed names all have records at least as
    recent as their files changes nothing but the log. *)
Lemma poll_dominated_noop (w : world (gmap string Z)) :
  dominates (w_fs w) (w_base w) (walk_items cfg (w_fs w)) ->
  exists evs,
    poll cfg w = (Ok tt, mkWorld (w_fs w) (w_dest w) (w_dest_writable w)
                                 (w_base w) (w_trace w ++ evs)) /\
    copy_events evs = [] /\ notify_count evs = 0.
Proof.
  intros Hdom. destruct (poll cfg w) as [r w2] eqn:Hrun. apply poll_run in Hrun.
  destruct w2 as [fs2 d2 wr2 b2 tr2]; simpl in *.
  destruct (os_path_exists (w_fs w) _).
  - rewrite sync_spec_dominated_noop in Hrun by done.
    destruct Hrun as (-> & -> & -> & -> & -> & evs & -> & Hc & Hn). by exists evs.
  - destruct Hrun as [-> [= -> -> -> -> ->]]. by eexists.
Qed.

(** After a poll whose pass runs to the end, if the root exists, every
    allowed name of the walk has a record at least as recent as its
    file. *)
Lemma poll_dominates_after (w w1 : world (gmap string Z)) r :
  poll cfg w = (r, w1) ->
  (os_path_exists (w_fs w) (app_location_path cfg) = true ->
   so_done (sync_spec cfg (w_fs w) (w_dest_writable w) (w_base w) (w_dest w)
                      (walk_items cfg (w_fs w))) = true) ->
  dominates (w_fs w1) (w_base w1) (walk_items cfg (w_fs w1)).
Proof.
  intros Hrun%poll_run Hdone. destruct (os_path_exists (w_fs w) _) eqn:Hex.
  - destruct Hrun as (-> & _ & -> & _). by apply sync_spec_dominates, Hdone.
  - destruct Hrun as [_ ->]. intros root f Hin. simpl in Hin.
    apply walk_items_root_exists in Hin. congruence.
Qed.

(** A poll that returns normally ran its pass to the end. *)
Lemma poll_ok_done (w w1 : world (gmap string Z)) :
  poll cfg w = (Ok tt, w1) ->
  os_path_exists (w_fs w) (app_location_path cfg) = true ->
  so_done (sync_spec cfg (w_fs w) (w_dest_writable w) (w_base w) (w_dest w)
                     (walk_items cfg (w_fs w))) = true.
Proof.
  intros Hrun%poll_run Hex. rewrite Hex in Hrun.
  destruct Hrun as (_ & _ & _ & _ & Hr & _).
  destruct (so_done _); [done|]. by destruct Hr as [? ?].
Qed.

(** A copied file's name ends the pass with a record at least as recent
    as the file. *)
Lemma sync_spec_copied_recorded fs wr s dest items src dst :
  (src, dst) ∈ so_copied (sync_spec cfg fs wr s dest items) ->
  exists root f t t1, src = root ++ [basename f] /\ stat_spec fs src = Some t /\
    so_base (sync_spec cfg fs wr s dest items) !! basename f = Some t1 /\ (t <= t1)%Z.
Proof.
  revert s dest. induction items as [|[root f] items IH]; intros s dest; cbn [sync_spec].
  { by intros ?%elem_of_nil. }
  destruct (sync_item cfg fs wr s dest (root, f)) as [s1 d1 c|s1] eqn:Hi;
    cbn [so_copied so_base]; [|by intros ?%elem_of_nil].
  intros [Hc|Hrest]%elem_of_app; [|by apply IH].
  destruct c as [[src' dst']|]; simpl in Hc; [|by apply elem_of_nil in Hc].
  apply list_elem_of_singleton in Hc as [= -> ->].
  pose proof Hi as Hi'. apply sync_item_copied in Hi' as (-> & Hal & _).
  destruct (sync_item_next_records _ _ _ _ _ _ _ _ _ Hi Hal) as (t & t1 & Ht & Ht1 & Hle).
  destruct (sync_spec_mono fs wr s1 d1 items _ _ Ht1) as (t2 & Ht2 & Hle2).
  exists root, f, t, t2. split_and!; [done|done|done|lia].
Qed.

(** A file whose record is at least as recent as its modification time
    is not copied. *)
Lemma poll_no_recopy (w w' : world (gmap string Z)) r root f t t0 :
  stat_spec (w_fs w) (root ++ [basename f]) = Some t ->
  w_base w !! basename f = Some t0 -> (t <= t0)%Z ->
  poll cfg w = (r, w') ->
  exists evs, w_trace w' = w_trace w ++ evs /\
    forall dst, EvCopy (root ++ [basename f]) dst ∉ evs.
Proof.
  intros Ht Ht0 Hle Hrun%poll_run. destruct (os_path_exists _ _).
  - destruct Hrun as (_ & _ & _ & _ & _ & evs & Htr & Hc & _).
    exists evs. split; [done|]. intros dst Hin%elem_of_copy_events. rewrite Hc in Hin.
    destruct (sync_spec_copies_newer _ _ _ _ _ _ _ Hin) as (root' & f' & t' & Hsrc & Ht' & Hnew).
    rewrite Ht in Ht'. injection Ht' as <-.
    apply app_inj_tail in Hsrc as [_ Hf]. rewrite <- Hf in Hnew.
    specialize (Hnew t0 Ht0). lia.
  - destruct Hrun as [_ ->]. eexists. split; [done|].
    intros dst [Hin|Hin]%elem_of_cons; [done|by apply elem_of_nil in Hin].
Qed.

Lemma stat_spec_file_at fs p m : file_at fs p = Some m -> stat_spec fs p = f_mtime m.
Proof. unfold file_at, stat_spec. by destruct (fs_lookup fs p) as [[|]|]; intros [= ->]. Qed.

(** ** Properties of [poll] over the last-seen base *)

(** C9. With the last-seen base, a poll that returns normally has
    examined every allowed name of the walk: each has a record at least
    as recent as its file's modification time. *)
Theorem poll_examines_every_allowed_file (w w' : world (gmap string Z)) :
  poll cfg w = (Ok tt, w') ->
  dominates (w_fs w) (w_base w') (walk_items cfg (w_fs w)).
Proof.
  intros Hrun%poll_run. destruct (os_path_exists _ _) eqn:Hex.
  - destruct Hrun as (_ & _ & Hb & _ & Hr & _). rewrite Hb.
    destruct (so_done _) eqn:Hd; [|destruct Hr as [? ?]; discriminate].
    by apply sync_spec_dominates.
  - intros root f Hin. apply walk_items_root_exists in Hin. congruence.
Qed.

(** C10. With the last-seen base, polling an unchanged tree again after a
    poll that returned normally copies nothing, notifies no one, and
    leaves the records and the destination as they were. *)
Theorem poll_idempotent (w w1 : world (gmap string Z)) :
  poll cfg w = (Ok tt, w1) ->
  exists evs,
    poll cfg w1 = (Ok tt, mkWorld (w_fs w1) (w_dest w1) (w_dest_writable w1)
                                  (w_base w1) (w_trace w1 ++ evs)) /\
    copy_events evs = [] /\ notify_count evs = 0.
Proof.
  intros Hrun. apply poll_dominated_noop, (poll_dominates_after w w1 (Ok tt) Hrun).
  by apply (poll_ok_done w w1).
Qed.

(** C11. With the last-seen base, a file is copied only when its
    modification time is strictly newer than the time recorded for its
    name before the poll, if there is one. *)
Theorem poll_copies_only_newer (w : world (gmap string Z)) r w' :
  poll cfg w = (r, w') ->
  exists evs, w_trace w' = w_trace w ++ evs /\
    forall src dst, EvCopy src dst ∈ evs ->
    exists root f t, src = root ++ [basename f] /\ stat_spec (w_fs w) src = Some t /\
      forall t0, w_base w !! basename f = Some t0 -> (t0 < t)%Z.
Proof.
  intros Hrun%poll_run. destruct (os_path_exists _ _).
  - destruct Hrun as (_ & _ & _ & _ & _ & evs & Htr & Hc & _).
    exists evs. split; [done|]. intros src dst Hin%elem_of_copy_events.
    rewrite Hc in Hin. by eapply sync_spec_copies_newer.
  - destruct Hrun as [-> ->]. eexists. split; [done|].
    intros src dst [Hin|Hin]%elem_of_cons; [done|by apply elem_of_nil in Hin].
Qed.

(** C2. With the last-seen base, [poll] mirrors every changed file:
    when the allowed names of the walk are distinct, each of them can be
    stat'ed and the destination is writable, every allowed readable file
    that the base finds outdated ends up in the destination with its
    content, whatever else the poll does. *)
Theorem poll_mirrors_newer_files (w w' : world (gmap string Z)) r root f m t :
  NoDup (allowed_names cfg (walk_items cfg (w_fs w))) ->
  stat_ok cfg (w_fs w) (walk_items cfg (w_fs w)) ->
  w_dest_writable w = true ->
  (root, f) ∈ walk_items cfg (w_fs w) -> basename f ∈ allowed_files cfg ->
  fs_lookup (w_fs w) (root ++ [basename f]) = Some (FsFile m) ->
  f_readable m = true -> f_mtime m = Some t ->
  (last_seen_outdated t (basename f) (w_base w)).1 = true ->
  poll cfg w = (r, w') ->
  w_dest w' !! last_seen_destination dest_dir (basename f) = Some (f_content m).
Proof.
  intros Hnd Hok Hwr Hin Hal Hl Hr Ht Hnew Hrun%poll_run.
  rewrite (walk_items_root_exists _ _ _ _ Hin) in Hrun.
  destruct Hrun as (_ & _ & _ & Hd & _). rewrite Hd, Hwr.
  by eapply sync_spec_mirrors.
Qed.

(** C7. A notification is lost for good: a poll that raises after
    copying a file has not notified the executor, and as long as that
    file keeps its modification time no later poll copies it again,
    whatever else changed in the tree; so the executor is never told of
    that copy. *)
Theorem poll_lost_notification (w w1 : world (gmap string Z)) e :
  poll cfg w = (Err e, w1) ->
  exists evs1, w_trace w1 = w_trace w ++ evs1 /\ notify_count evs1 = 0 /\
    forall src dst, EvCopy src dst ∈ evs1 ->
    forall fs' r2 w2, stat_spec fs' src = stat_spec (w_fs w) src ->
    poll cfg (mkWorld fs' (w_dest w1) (w_dest_writable w1) (w_base w1) (w_trace w1))
      = (r2, w2) ->
    exists evs2, w_trace w2 = w_trace w1 ++ evs2 /\ forall dst', EvCopy src dst' ∉ evs2.
Proof.
  intros Hrun%poll_run. destruct (os_path_exists _ _); [|by destruct Hrun].
  destruct Hrun as (Hfs & _ & Hb & _ & Hr & evs1 & Htr & Hc & Hn).
  destruct (so_done _); [done|].
  exists evs1. split_and!; [done|done|].
  intros src dst Hin%elem_of_copy_events fs' r2 w2 Hst Hrun2. rewrite Hc in Hin.
  destruct (sync_spec_copied_recorded _ _ _ _ _ _ _ Hin)
    as (root & f & t & t1 & -> & Ht & Ht1 & Hle).
  apply (poll_no_recopy (mkWorld fs' (w_dest w1) (w_dest_writable w1) (w_base w1)
                                (w_trace w1)) w2 r2 root f t t1); [|by rewrite Hb|done|done].
  simpl. by rewrite Hst.
Qed.

(** C14. A failed copy is never retried: when a poll returns normally
    although an allowed file could not be read ([PermissionError],
    caught), the base has recorded the file's time; it is not copied,
    and the next poll of any tree in which the file keeps that time does
    not copy it either, even once the file is readable. *)
Theorem poll_permission_failure_stale (w w1 : world (gmap string Z)) root f m fs' r2 w2 :
  poll cfg w = (Ok tt, w1) ->
  (root, f) ∈ walk_items cfg (w_fs w) -> basename f ∈ allowed_files cfg ->
  file_at (w_fs w) (root ++ [basename f]) = Some m -> f_readable m = false ->
  stat_spec fs' (root ++ [basename f]) = f_mtime m ->
  poll cfg (mkWorld fs' (w_dest w1) (w_dest_writable w1) (w_base w1) (w_trace w1))
    = (r2, w2) ->
  exists evs1 evs2, w_trace w1 = w_trace w ++ evs1 /\ w_trace w2 = w_trace w1 ++ evs2 /\
    forall dst, EvCopy (root ++ [basename f]) dst ∉ evs1 ++ evs2.
Proof.
  intros Hrun Hin Hal Hm Hr Hst Hrun2.
  pose proof (walk_items_root_exists _ _ _ _ Hin) as Hex.
  pose proof (poll_ok_done _ _ Hrun Hex) as Hdone.
  pose proof (poll_run cfg w _ _ Hrun) as H1. rewrite Hex in H1.
  destruct H1 as (Hfs & _ & Hb & _ & _ & evs1 & Htr1 & Hc1 & _).
  pose proof (sync_spec_dominates _ _ _ _ _ Hdone _ _ Hin Hal) as (t & t0 & Ht & Ht0 & Hle).
  rewrite <- Hb in Ht0.
  rewrite (stat_spec_file_at _ _ _ Hm) in Ht. rewrite Ht in Hst.
  destruct (poll_no_recopy (mkWorld fs' (w_dest w1) (w_dest_writable w1) (w_base w1)
                             (w_trace w1)) w2 r2 root f t t0 Hst Ht0 Hle Hrun2)
    as (evs2 & Htr2 & Hno2).
  exists evs1, evs2. split_and!; [done|done|].
  intros dst [Hin1|Hin2]%elem_of_app; [|by apply (Hno2 dst)].
  apply elem_of_copy_events in Hin1. rewrite Hc1 in Hin1.
  destruct (sync_spec_copied_file _ _ _ _ _ _ _ _ Hin1) as (m' & Hm' & Hr').
  congruence.
Qed.

End LastSeenFacts.

(** ** Concrete runs and witnesses *)

Definition demo_file (t : option Z) (c : string) : fs_node :=
  FsFile (mkFileMeta t true c).

Definition demo_cfg : handler_config :=
  mkHandlerConfig ["app"] ["a.json"; "b.json"; "config.py"].

Definition demo_world (fs : fs_node) (base : gmap string Z) : world (gmap string Z) :=
  mkWorld fs ∅ true base [].

Definition demo_run (w : world (gmap string Z)) :=
  @poll _ (last_seen_base "/dst") demo_cfg w.

(** The spec's scenario: one allowed file newer than its record, one not
    newer, one name the allow list rejects. *)
Definition tree_spec : fs_node :=
  FsDir 0 [("app", FsDir 1 [("a.json", demo_file (Some 10%Z) "A");
                            ("b.json", demo_file (Some 5%Z) "B");
                            ("notes.txt", demo_file (Some 7%Z) "N")])].

Definition base_spec : gmap string Z := {[ "a.json" := 3%Z; "b.json" := 5%Z ]}.

(** A dangling link ([b.json]) after a changed file, and the same tree
    once the link is gone. *)
Definition tree_dangling : fs_node :=
  FsDir 0 [("app", FsDir 1 [("a.json", demo_file (Some 10%Z) "A");
                            ("b.json", demo_file None "")])].

Definition tree_fixed : fs_node :=
  FsDir 0 [("app", FsDir 1 [("a.json", demo_file (Some 10%Z) "A")])].

(** Two files named [config.py], the nested one newer. *)
Definition tree_nested : fs_node :=
  FsDir 0 [("app", FsDir 1 [("config.py", demo_file (Some 10%Z) "top");
                            ("sub", FsDir 2 [("config.py", demo_file (Some 20%Z) "nested")])])].

(** An unreadable allowed file next to a readable one. *)
Definition tree_unreadable : fs_node :=
  FsDir 0 [("app", FsDir 1 [("a.json", FsFile (mkFileMeta (Some 10%Z) false "A"));
                            ("b.json", demo_file (Some 4%Z) "B")])].

(** The same tree once [a.json] has become readable, its modification
    time unchanged. *)
Definition tree_unlocked : fs_node :=
  FsDir 0 [("app", FsDir 1 [("a.json", demo_file (Some 10%Z) "A");
                            ("b.json", demo_file (Some 4%Z) "B")])].

Lemma poll_missing_root_witness :
  demo_run (demo_world (FsDir 0 []) ∅) =
  (Ok tt, mkWorld (FsDir 0 []) ∅ true ∅ [EvLogError "path does not exist" ["app"]]).
Proof. apply poll_missing_root. vm_compute. reflexivity. Defined.

Lemma poll_notifies_once_iff_copied_witness :
  let w := demo_world tree_spec base_spec in
  exists evs, w_trace (demo_run w).2 = (w_trace w ++ evs)%list /\
    notify_count evs =
      (if bool_decide ((demo_run w).1 = Ok tt) && bool_decide (copy_events evs <> [])
       then 1 else 0).
Proof.
  apply (@poll_notifies_once_iff_copied _ (last_seen_base "/dst") demo_cfg _ (demo_run (demo_world tree_spec base_spec)).1
           (demo_run (demo_world tree_spec base_spec)).2).
  vm_compute. reflexivity.
Defined.

Definition w_spec := demo_world tree_spec base_spec.
Definition w_unreadable := demo_world tree_unreadable ∅.
Definition w_dangling := demo_world tree_dangling ∅.
Definition w_none_allowed := demo_world (FsDir 0 [("app", FsDir 1 [("notes.txt", demo_file (Some 1%Z) "N")])]) ∅.

Lemma poll_refines_sync_spec_witness :
  let o := @sync_spec _ (last_seen_base "/dst") demo_cfg tree_spec true base_spec ∅
                      (walk_items demo_cfg tree_spec) in
  ((demo_run w_spec).1 = Ok tt <-> so_done o = true) /\
  w_fs (demo_run w_spec).2 = tree_spec /\
  w_base (demo_run w_spec).2 = so_base o /\ w_dest (demo_run w_spec).2 = so_dest o /\
  exists evs, w_trace (demo_run w_spec).2 = ([] ++ evs)%list /\ copy_events evs = so_copied o /\
    notify_count evs = (if so_done o && bool_decide (so_copied o <> []) then 1 else 0).
Proof.
  apply (@poll_refines_sync_spec _ (last_seen_base "/dst") demo_cfg w_spec
           (demo_run w_spec).1 (demo_run w_spec).2); vm_compute; reflexivity.
Defined.

Lemma poll_copies_only_allowed_witness :
  exists evs, w_trace (demo_run w_spec).2 = ([] ++ evs)%list /\
    forall src dst, EvCopy src dst ∈ evs ->
    exists root f, (root, f) ∈ walk_items demo_cfg tree_spec /\
      src = (root ++ [basename f])%list /\ basename f ∈ allowed_files demo_cfg /\
      dst = last_seen_destination "/dst" (basename f).
Proof.
  apply (@poll_copies_only_allowed _ (last_seen_base "/dst") demo_cfg w_spec
           (demo_run w_spec).1 (demo_run w_spec).2); vm_compute; reflexivity.
Defined.

Lemma poll_completes_when_stat_ok_witness :
  (demo_run w_unreadable).1 = Ok tt /\
  In (EvLogException "failed to download file" "a.json") (w_trace (demo_run w_unreadable).2).
Proof.
  split.
  - apply (@poll_completes_when_stat_ok _ (last_seen_base "/dst") demo_cfg w_unreadable
             (demo_run w_unreadable).1 (demo_run w_unreadable).2).
    + apply (bool_decide_unpack _). vm_compute. reflexivity.
    + vm_compute. reflexivity.
  - vm_compute. left. reflexivity.
Defined.

Lemma poll_stat_failure_escapes_witness :
  (exists e, (demo_run w_dangling).1 = Err e) /\
  exists evs, w_trace (demo_run w_dangling).2 = ([] ++ evs)%list /\ notify_count evs = 0.
Proof.
  apply (@poll_stat_failure_escapes _ (last_seen_base "/dst") demo_cfg w_dangling
           (demo_run w_dangling).1 (demo_run w_dangling).2 ["app"] "b.json").
  - apply (bool_decide_unpack _). vm_compute. reflexivity.
  - apply (bool_decide_unpack _). vm_compute. reflexivity.
  - vm_compute. reflexivity.
  - vm_compute. reflexivity.
Defined.

Lemma poll_no_allowed_files_witness :
  (demo_run w_none_allowed).1 = Ok tt /\ w_dest (demo_run w_none_allowed).2 = ∅ /\
  w_base (demo_run w_none_allowed).2 = ∅ /\
  exists evs, w_trace (demo_run w_none_allowed).2 = ([] ++ evs)%list /\
              copy_events evs = [] /\ notify_count evs = 0.
Proof.
  apply (@poll_no_allowed_files _ (last_seen_base "/dst") demo_cfg w_none_allowed
           (demo_run w_none_allowed).1 (demo_run w_none_allowed).2).
  - apply (bool_decide_unpack _). vm_compute. reflexivity.
  - vm_compute. reflexivity.
Defined.

Lemma poll_examines_every_allowed_file_witness :
  dominates demo_cfg tree_spec (w_base (demo_run w_spec).2) (walk_items demo_cfg tree_spec).
Proof.
  apply (poll_examines_every_allowed_file "/dst" demo_cfg w_spec (demo_run w_spec).2).
  vm_compute. reflexivity.
Defined.

Lemma poll_idempotent_witness :
  exists evs,
    demo_run (demo_run w_spec).2 =
      (Ok tt, mkWorld (w_fs (demo_run w_spec).2) (w_dest (demo_run w_spec).2)
                      (w_dest_writable (demo_run w_spec).2) (w_base (demo_run w_spec).2)
                      (w_trace (demo_run w_spec).2 ++ evs)%list) /\
    copy_events evs = [] /\ notify_count evs = 0.
Proof.
  apply (poll_idempotent "/dst" demo_cfg w_spec (demo_run w_spec).2).
  vm_compute. reflexivity.
Defined.

Lemma poll_copies_only_newer_witness :
  exists evs, w_trace (demo_run w_spec).2 = ([] ++ evs)%list /\
    forall src dst, EvCopy src dst ∈ evs ->
    exists root f t, src = (root ++ [basename f])%list /\ stat_spec tree_spec src = Some t /\
      forall t0, base_spec !! basename f = Some t0 -> (t0 < t)%Z.
Proof.
  apply (poll_copies_only_newer "/dst" demo_cfg w_spec
           (demo_run w_spec).1 (demo_run w_spec).2).
  vm_compute. reflexivity.
Defined.

Lemma poll_mirrors_newer_files_witness :
  w_dest (demo_run w_spec).2 !! last_seen_destination "/dst" "a.json" = Some "A".
Proof.
  apply (poll_mirrors_newer_files "/dst" demo_cfg w_spec (demo_run w_spec).2
           (demo_run w_spec).1 ["app"] "a.json" (mkFileMeta (Some 10%Z) true "A") 10%Z);
    first [apply (bool_decide_unpack _); vm_compute; reflexivity
          | vm_compute; reflexivity].
Defined.


Lemma poll_lost_notification_witness :
  let w1 := (demo_run w_dangling).2 in
  exists evs1, w_trace w1 = (w_trace w_dangling ++ evs1)%list /\ notify_count evs1 = 0 /\
    forall src dst, EvCopy src dst ∈ evs1 ->
    forall fs' r2 w2, stat_spec fs' src = stat_spec (w_fs w_dangling) src ->
    demo_run (mkWorld fs' (w_dest w1) (w_dest_writable w1) (w_base w1) (w_trace w1)) = (r2, w2) ->
    exists evs2, w_trace w2 = (w_trace w1 ++ evs2)%list /\ forall dst', EvCopy src dst' ∉ evs2.
Proof.
  intros w1.
  apply (poll_lost_notification "/dst" demo_cfg w_dangling w1 (FileNotFoundError "app/b.json")).
  vm_compute. reflexivity.
Defined.

Lemma poll_permission_failure_stale_witness :
  let w := demo_world tree_unreadable ∅ in
  let w1 := (demo_run w).2 in
  let w2 := (demo_run (mkWorld tree_unlocked (w_dest w1) (w_dest_writable w1) (w_base w1)
                               (w_trace w1))).2 in
  exists evs1 evs2, w_trace w1 = (w_trace w ++ evs1)%list /\
    w_trace w2 = (w_trace w1 ++ evs2)%list /\
    forall dst, EvCopy (["app"] ++ [basename "a.json"])%list dst ∉ (evs1 ++ evs2)%list.
Proof.
  intros w w1 w2.
  apply (poll_permission_failure_stale "/dst" demo_cfg w w1 ["app"] "a.json"
           (mkFileMeta (Some 10%Z) false "A") tree_unlocked
           (demo_run (mkWorld tree_unlocked (w_dest w1) (w_dest_writable w1) (w_base w1)
                              (w_trace w1))).1 w2);
    first [apply (bool_decide_unpack _); vm_compute; reflexivity
          | vm_compute; reflexivity].
Defined.

End Poller.
