(* ===== verification/PollerSystem.v ===== *)
(** * The poller over time

    [LocalResourceHandler.poll] is called again and again by the
    server's runner, while the tree under the application location and
    the permission of the destination change between calls.  What
    persists from one call to the next is the world of
    [LocalResourceHandler.v] with the last-seen base: the records of
    the base class, the destination and the trace of effects.  This file
    models the repeated calls as a step relation [sys_step] (one [poll],
    whatever it returns, or one change of the environment), proves
    invariants of every reachable state by induction on the steps, and
    shows that polls of an unchanging tree settle after the first one:
    further polls change neither the records nor the destination, even
    when each of them raises. *)

From S2P Require Import Prelude.
From S2P Require Import LocalResourceHandler.
Import Poller.

Local Open Scope string_scope.

Module PollLoop.

Section System.
Variable dest_dir : string.
#[local] Instance sys_base : ResourceHandlerBase (gmap string Z) :=
  last_seen_base dest_dir.
Variable cfg : handler_config.
Local Open Scope list_scope.

Local Abbreviation W := (world (gmap string Z)).

(** ** The step relation *)

(** One call of [poll], whatever it returns, or a change of the tree and
    of the destination's permission by the environment.  The destination
    itself is written by the poller alone. *)
Inductive sys_step : W -> W -> Prop :=
| SysPoll w r w' : poll cfg w = (r, w') -> sys_step w w'
| SysEnv w fs wr : sys_step w (mkWorld fs (w_dest w) wr (w_base w) (w_trace w)).

(** The runner starts with no records, an empty destination and an
    empty trace. *)
Definition sys_init (fs : fs_node) (wr : bool) : W := mkWorld fs ∅ wr ∅ [].

Definition reachable (w : W) : Prop :=
  exists fs wr, rtc sys_step (sys_init fs wr) w.

(** An executable schedule of steps, to build reachable states. *)
Inductive sys_action := APoll | AEnv (fs : fs_node) (wr : bool).

Definition sys_exec (w : W) (a : sys_action) : W :=
  match a with
  | APoll => (poll cfg w).2
  | AEnv fs wr => mkWorld fs (w_dest w) wr (w_base w) (w_trace w)
  end.

Definition run_script (acts : list sys_action) (w : W) : W :=
  fold_left sys_exec acts w.

(** No allowed name of the walk resolves to a directory: what [os.walk]
    guarantees of the names it lists among the files. *)
Definition no_dir_item (fs : fs_node) (it : path * string) : bool :=
  let '(root, f) := it in
  negb (bool_decide (basename f ∈ allowed_files cfg)) ||
  match fs_lookup fs (root ++ [basename f]) with
  | Some (FsDir _ _) => false
  | _ => true
  end.

Definition walk_no_dirs (fs : fs_node) : Prop :=
  Forall (fun it => no_dir_item fs it = true) (walk_items cfg fs).

(** A state that the pass over its own tree leaves as it is. *)
Definition settled (w : W) : Prop :=
  exists d, sync_spec cfg (w_fs w) (w_dest_writable w) (w_base w) (w_dest w)
                      (walk_items cfg (w_fs w)) = SyncOut d (w_base w) (w_dest w) [].

(** ** The invariants *)

(** Every destination file is at the destination of an allowed name that
    has a record, and only allowed names have records. *)
Definition store_inv (s : gmap string Z) (dest : gmap string string) : Prop :=
  (forall d c, dest !! d = Some c ->
     exists n, n ∈ allowed_files cfg /\ d = last_seen_destination dest_dir n /\
               is_Some (s !! n)) /\
  (forall n, is_Some (s !! n) -> n ∈ allowed_files cfg).

(** No more notifications than copies in the trace. *)
Definition trace_inv (evs : list event) : Prop :=
  notify_count evs <= length (copy_events evs).

(** ** Reachability *)

Lemma sys_exec_step w a : sys_step w (sys_exec w a).
Proof.
  destruct a as [|fs wr]; simpl; [|constructor].
  apply (SysPoll w (poll cfg w).1). by destruct (poll cfg w).
Qed.

Lemma run_script_rtc acts w : rtc sys_step w (run_script acts w).
Proof.
  revert w. induction acts as [|a acts IH]; intros w; [done|].
  eapply rtc_l; [apply sys_exec_step|apply IH].
Qed.

Lemma run_script_reachable acts fs wr : reachable (run_script acts (sys_init fs wr)).
Proof. exists fs, wr. apply run_script_rtc. Qed.

(** Rule induction over the reachable states. *)
Lemma reachable_ind (P : W -> Prop) :
  (forall fs wr, P (sys_init fs wr)) ->
  (forall w w', P w -> sys_step w w' -> P w') ->
  forall w, reachable w -> P w.
Proof.
  intros Hinit Hstep w (fs & wr & Hrtc).
  apply (rtc_ind_r (R := sys_step) P (sys_init fs wr)); [done| |done].
  intros w1 w2 _ Hs IH. by eapply Hstep.
Qed.

(** ** The store invariant along a pass *)

Lemma last_seen_store t n s b s1 :
  last_seen_outdated t n s = (b, s1) ->
  is_Some (s1 !! n) /\ (forall k, is_Some (s !! k) -> is_Some (s1 !! k)) /\
  (forall k, is_Some (s1 !! k) -> k = n \/ is_Some (s !! k)).
Proof.
  intros Ho. split_and!.
  - by destruct (last_seen_records _ _ _ _ _ Ho) as (t1 & -> & _).
  - intros k [t0 Hk]. by destruct (last_seen_mono _ _ _ _ _ _ _ Ho Hk) as (t1 & -> & _).
  - intros k Hk. destruct (decide (k = n)) as [->|Hne]; [by left|right].
    by rewrite <- (last_seen_other _ _ _ _ _ _ Ho Hne).
Qed.

Lemma store_inv_record t n s b s1 dest :
  n ∈ allowed_files cfg -> last_seen_outdated t n s = (b, s1) ->
  store_inv s dest -> store_inv s1 dest.
Proof.
  intros Hal Ho [Hd Hs]. destruct (last_seen_store _ _ _ _ _ Ho) as (Hn & Hup & Hnew).
  split.
  - intros d c Hdc. destruct (Hd d c Hdc) as (n' & ? & ? & ?). exists n'. auto.
  - intros k [->|]%Hnew; auto.
Qed.

Lemma store_inv_copy s dest n c :
  n ∈ allowed_files cfg -> is_Some (s !! n) -> store_inv s dest ->
  store_inv s (<[last_seen_destination dest_dir n := c]> dest).
Proof.
  intros Hal Hn [Hd Hs]. split; [|done].
  intros d c' Hdc. destruct (decide (d = last_seen_destination dest_dir n)) as [->|Hne].
  - by exists n.
  - rewrite lookup_insert_ne in Hdc by congruence. by apply (Hd d c').
Qed.

Lemma sync_item_store_inv fs wr s dest it :
  store_inv s dest ->
  match sync_item cfg fs wr s dest it with
  | ItemNext s1 d1 _ => store_inv s1 d1
  | ItemStop s1 => store_inv s1 dest
  end.
Proof.
  destruct it as [root f]. intros Hinv. unfold sync_item.
  case_bool_decide as Hal; [|done].
  destruct (stat_spec _ _) as [t|]; [|done].
  change (is_object_outdated t (basename f) s) with (last_seen_outdated t (basename f) s).
  destruct (last_seen_outdated t (basename f) s) as [b s1] eqn:Ho.
  pose proof (store_inv_record _ _ _ _ _ dest Hal Ho Hinv) as Hinv1.
  destruct b; [|done].
  destruct (copy_spec _ _ _ _) as [c|e]; [|by destruct (download_error e)].
  apply store_inv_copy; [done| |done].
  by destruct (last_seen_store _ _ _ _ _ Ho).
Qed.

Lemma sync_spec_store_inv fs wr s dest items :
  store_inv s dest ->
  store_inv (so_base (sync_spec cfg fs wr s dest items))
            (so_dest (sync_spec cfg fs wr s dest items)).
Proof.
  revert s dest. induction items as [|it items IH]; intros s dest Hinv; [done|].
  pose proof (sync_item_store_inv fs wr s dest it Hinv) as Hi.
  cbn [sync_spec]. destruct (sync_item cfg fs wr s dest it); [by apply IH|done].
Qed.

Lemma notify_count_log msg p : notify_count [EvLogError msg p] = 0.
Proof. done. Qed.

Lemma copy_events_log msg p : copy_events [EvLogError msg p] = [].
Proof. done. Qed.

Lemma poll_store_inv w r w' :
  store_inv (w_base w) (w_dest w) -> poll cfg w = (r, w') ->
  store_inv (w_base w') (w_dest w').
Proof.
  intros Hinv Hrun%poll_run. destruct (os_path_exists _ _).
  - destruct Hrun as (_ & _ & -> & -> & _). by apply sync_spec_store_inv.
  - destruct Hrun as [_ ->]. exact Hinv.
Qed.

Lemma poll_trace_inv w r w' :
  trace_inv (w_trace w) -> poll cfg w = (r, w') -> trace_inv (w_trace w').
Proof.
  unfold trace_inv. intros Hinv Hrun%poll_run. destruct (os_path_exists _ _).
  - destruct Hrun as (_ & _ & _ & _ & _ & evs & -> & Hc & Hn).
    rewrite notify_count_app, copy_events_app, length_app, Hn, Hc.
    case_bool_decide as Hne; destruct (so_done _); simpl; try lia.
    destruct (so_copied _); [done|simpl; lia].
  - destruct Hrun as [_ ->]. simpl.
    rewrite notify_count_app, copy_events_app, length_app, notify_count_log,
      copy_events_log. simpl. lia.
Qed.

Lemma sys_step_store_inv w w' :
  store_inv (w_base w) (w_dest w) -> sys_step w w' -> store_inv (w_base w') (w_dest w').
Proof. intros Hinv Hs. revert Hinv. destruct Hs as [w0 r w1 Hrun|w0 fs wr]; [|done].
  intros Hinv. exact (poll_store_inv w0 r w1 Hinv Hrun). Qed.

Lemma sys_step_trace_inv w w' :
  trace_inv (w_trace w) -> sys_step w w' -> trace_inv (w_trace w').
Proof. intros Hinv Hs. revert Hinv. destruct Hs as [w0 r w1 Hrun|w0 fs wr]; [|done].
  intros Hinv. exact (poll_trace_inv w0 r w1 Hinv Hrun). Qed.

(** ** Repeated polls of an unchanging tree *)

(** On names that are not directories, a pass stops only on a failed
    stat, which changes nothing. *)
Lemma sync_item_stop_unstat fs wr s dest root f s1 :
  no_dir_item fs (root, f) = true ->
  sync_item cfg fs wr s dest (root, f) = ItemStop s1 -> s1 = s.
Proof.
  intros Hnd Hi. pose proof Hi as Hi'.
  apply sync_item_stop_stat in Hi' as [Hal [Hst|(d & [t Ht] & e & Hc & He)]].
  - unfold sync_item in Hi. rewrite bool_decide_true, Hst in Hi by done.
    by injection Hi.
  - exfalso. simpl in Hnd. rewrite bool_decide_true in Hnd by done. simpl in Hnd.
    unfold stat_spec in Ht. destruct (fs_lookup fs _) as [[m|]|] eqn:Hl; try done.
    pose proof (copy_spec_file_caught fs wr _ d m Hl) as Hcaught.
    rewrite Hc in Hcaught. congruence.
Qed.

(** A second pass over the same names from where the first ended
    changes nothing and copies nothing. *)
Lemma sync_spec_settles fs wr s dest items :
  Forall (fun it => no_dir_item fs it = true) items ->
  sync_spec cfg fs wr (so_base (sync_spec cfg fs wr s dest items))
                      (so_dest (sync_spec cfg fs wr s dest items)) items =
  SyncOut (so_done (sync_spec cfg fs wr s dest items))
          (so_base (sync_spec cfg fs wr s dest items))
          (so_dest (sync_spec cfg fs wr s dest items)) [].
Proof.
  revert s dest. induction items as [|[root f] items IH]; intros s dest Hnd; [done|].
  apply Forall_cons in Hnd as [Hhd Htl]. cbn [sync_spec].
  destruct (sync_item cfg fs wr s dest (root, f)) as [s1 d1 c|s1] eqn:Hi;
    cbn [so_base so_dest so_done].
  - rewrite (sync_item_dominated_noop dest_dir cfg).
    + cbn [option_list app]. by rewrite (IH s1 d1 Htl).
    + intros Hal.
      destruct (sync_item_next_records dest_dir cfg _ _ _ _ _ _ _ _ _ Hi Hal) as (t & t1 & Ht & Ht1 & Hle).
      destruct (sync_spec_mono dest_dir cfg fs wr s1 d1 items _ _ Ht1) as (t2 & Ht2 & Hle2).
      exists t, t2. split_and!; [done|done|lia].
  - pose proof (sync_item_stop_unstat _ _ _ _ _ _ _ Hhd Hi) as ->. by rewrite Hi.
Qed.

Lemma walk_items_missing fs :
  os_path_exists fs (app_location_path cfg) = false -> walk_items cfg fs = [].
Proof.
  intros Hex. destruct (walk_items cfg fs) as [|[r f] its] eqn:Hw; [done|].
  exfalso. assert (Hin : (r, f) ∈ walk_items cfg fs) by (rewrite Hw; left).
  apply walk_items_root_exists in Hin. congruence.
Qed.

Lemma poll_settles w : walk_no_dirs (w_fs w) -> settled (poll cfg w).2.
Proof.
  intros Hnd. destruct (poll cfg w) as [r w1] eqn:Hrun. apply poll_run in Hrun. simpl.
  destruct (os_path_exists _ _) eqn:Hex.
  - destruct Hrun as (Hfs & Hwr & Hb & Hd & _). unfold settled.
    rewrite Hfs, Hwr, Hb, Hd. eexists. by apply sync_spec_settles.
  - destruct Hrun as [_ ->]. unfold settled. simpl. rewrite walk_items_missing by done.
    by eexists.
Qed.

Lemma poll_settled w r w' :
  settled w -> poll cfg w = (r, w') ->
  w_fs w' = w_fs w /\ w_dest_writable w' = w_dest_writable w /\
  w_base w' = w_base w /\ w_dest w' = w_dest w /\
  exists evs, w_trace w' = w_trace w ++ evs /\ copy_events evs = [] /\ notify_count evs = 0.
Proof.
  intros [d Hs] Hrun%poll_run. destruct (os_path_exists _ _).
  - rewrite Hs in Hrun. cbn [so_base so_dest so_copied so_done] in Hrun.
    destruct Hrun as (? & ? & ? & ? & _ & evs & ? & Hc & Hn).
    split_and!; try done. exists evs. split_and!; [done|done|].
    rewrite Hn. destruct d; [|done]. rewrite bool_decide_false; [done|]. by intros Hne.
  - destruct Hrun as [_ ->]. simpl. split_and!; try done. eexists. split_and!; [reflexivity|done|done].
Qed.

Lemma run_polls_settled n v :
  settled v ->
  let vn := run_script (replicate n APoll) v in
  w_base vn = w_base v /\ w_dest vn = w_dest v /\
  exists evs, w_trace vn = w_trace v ++ evs /\ copy_events evs = [] /\ notify_count evs = 0.
Proof.
  revert v. induction n as [|n IH]; intros v Hs; simpl.
  { split_and!; try done. exists []. by rewrite app_nil_r. }
  destruct (poll cfg v) as [r v1] eqn:Hrun. simpl.
  destruct (poll_settled v r v1 Hs Hrun) as (Hfs & Hwr & Hb & Hd & evs1 & Htr & Hc1 & Hn1).
  assert (Hs1 : settled v1) by (unfold settled; by rewrite Hfs, Hwr, Hb, Hd).
  destruct (IH v1 Hs1) as (Hb' & Hd' & evs2 & Htr' & Hc2 & Hn2).
  split_and!; [congruence|congruence|]. exists (evs1 ++ evs2).
  rewrite Htr', Htr, app_assoc, copy_events_app, notify_count_app, Hc1, Hc2, Hn1, Hn2.
  done.
Qed.

(** ** Properties of the system *)

(** C12. In every reachable state, each file of the destination is at the
    destination of an allowed name and that name has a record, and only
    allowed names have records, whatever the environment did to the tree
    between the polls. *)
Theorem reachable_store_inv w :
  reachable w -> store_inv (w_base w) (w_dest w).
Proof.
  apply (reachable_ind (fun w => store_inv (w_base w) (w_dest w)));
    [|apply sys_step_store_inv].
  intros fs wr. split; simpl.
  - intros d c. by rewrite lookup_empty.
  - intros n [t Hn]. by rewrite lookup_empty in Hn.
Qed.

(** C15. In every reachable state the trace holds at most as many
    notifications of the executor as copies: no poll notifies without
    having copied a file. *)
Theorem reachable_notify_le_copies w :
  reachable w -> notify_count (w_trace w) <= length (copy_events (w_trace w)).
Proof.
  apply (reachable_ind (fun w => trace_inv (w_trace w))); [intros fs wr; apply Nat.le_refl|].
  apply sys_step_trace_inv.
Qed.

(** C13. Polling an unchanging tree finishes its work in one poll: after
    the first poll, any number of further polls copy nothing, notify no
    one and change neither the records nor the destination, even when
    the polls raise (a dangling link stops each of them at the same
    name). *)
Theorem sys_polls_settle w n :
  walk_no_dirs (w_fs w) ->
  let w1 := (poll cfg w).2 in
  let wn := run_script (replicate n APoll) w1 in
  w_base wn = w_base w1 /\ w_dest wn = w_dest w1 /\
  exists evs, w_trace wn = w_trace w1 ++ evs /\ copy_events evs = [] /\ notify_count evs = 0.
Proof. intros Hnd. apply run_polls_settled, poll_settles, Hnd. Qed.

End System.

(** ** Concrete runs *)

Definition demo_schedule : list sys_action :=
  [APoll; AEnv tree_spec false; APoll; AEnv tree_nested true; APoll].

Definition demo_reached : world (gmap string Z) :=
  run_script "/dst" demo_cfg demo_schedule (sys_init tree_spec true).

Lemma reachable_store_inv_witness :
  store_inv "/dst" demo_cfg (w_base demo_reached) (w_dest demo_reached).
Proof. apply reachable_store_inv. apply run_script_reachable. Defined.

Lemma reachable_notify_le_copies_witness :
  notify_count (w_trace demo_reached) <= length (copy_events (w_trace demo_reached)).
Proof. apply (reachable_notify_le_copies "/dst" demo_cfg). apply run_script_reachable. Defined.

Lemma sys_polls_settle_witness :
  let w1 := (demo_run w_dangling).2 in
  let wn := run_script "/dst" demo_cfg (replicate 3 APoll) w1 in
  w_base wn = w_base w1 /\ w_dest wn = w_dest w1 /\
  exists evs, w_trace wn = (w_trace w1 ++ evs)%list /\ copy_events evs = [] /\ notify_count evs = 0.
Proof.
  apply (sys_polls_settle "/dst" demo_cfg w_dangling 3).
  apply (bool_decide_unpack _). vm_compute. reflexivity.
Defined.

End PollLoop.
