(* ===== verification/QueryParamValueSetter.v ===== *)
(** * Setting query parameter values

    Models [src/framework/src/framework/dsl/query/query_param_value_setter.py]:
    [QueryParamValueSetter.set_values], [validate_params] and the private
    [__alter_query_descriptor], [__alter_clause] and
    [__calculate_nlq_params].  The clause and descriptor methods it calls
    ([alter_value], [alter_weight], [evaluate], [calculate_param_infos],
    [append_missing_mandatory_clauses]) are not under [src/]: they form the
    interface [ClauseOps], whose laws are the spec's contract, and
    [spec_clause_ops] implements it from the spec.  The natural-language
    evaluator [NLQParamEvaluator] is an oracle, a variable of the section. *)

From S2P Require Import Prelude.

Local Open Scope string_scope.

Module QuerySetter.

(** ** Data *)

(** [Param]: a named parameter with an optional default. *)
Record Param := mkParam {
  param_name : string;
  param_default : option pyval
}.

(** A clause parameter: a bare [Param] or an [Evaluated[Param]]
    carrying its value. *)
Inductive ParamRef :=
| RParam (p : Param)
| REvaluated (item : Param) (value : pyval).

Inductive clause_kind :=
| NLQClause | NLQSystemPromptClause | SimilarFilterClause | HardFilterClause
| SpaceWeightClause | LimitClause | RadiusClause | SelectClause.

#[export] Instance clause_kind_eq_dec : EqDecision clause_kind.
Proof. solve_decision. Defined.

(** A [QueryClause]; [weight_param] is [Some] exactly for a
    [WeightedQueryClause]; [client_config] is the [NLQClause]'s. *)
Record QueryClause := mkClause {
  clause_type : clause_kind;
  value_param : ParamRef;
  weight_param : option ParamRef;
  client_config : option string
}.

Record QueryDescriptor := mkQueryDescriptor {
  clauses : list QueryClause
}.

(** What [calculate_param_infos] reports of a parameter to the evaluator. *)
Record ParamInfo := mkParamInfo {
  pi_name : string;
  pi_is_weight : bool;
  pi_value : option pyval
}.

Definition ref_param (r : ParamRef) : Param :=
  match r with RParam p => p | REvaluated p _ => p end.

Definition is_evaluated (r : ParamRef) : bool :=
  match r with REvaluated _ _ => true | RParam _ => false end.

(** [param.item.name if isinstance(param, Evaluated) else param.name] *)
Definition param_ref_name (param : ParamRef) : string :=
  match param with
  | REvaluated item _ => param_name item
  | RParam p => param_name p
  end.

(** [r] is not evaluated yet or [params] does not name it. *)
Definition key_unevaluated (params : gmap string pyval) (r : ParamRef) : bool :=
  negb (is_evaluated r) || bool_decide (params !! param_ref_name r = None).

(** No key of [params] names a parameter of [qd] that is already
    evaluated. *)
Definition explicit_keys_unevaluated (qd : QueryDescriptor)
  (params : gmap string pyval) : bool :=
  forallb (fun c => key_unevaluated params (value_param c) &&
                    from_option (key_unevaluated params) true (weight_param c))
          (clauses qd).

(** [QueryDescriptor.get_weighted_clauses] *)
Definition get_weighted_clauses (qd : QueryDescriptor) : list QueryClause :=
  filter (fun c => is_Some (weight_param c)) (clauses qd).

(** [QueryDescriptor.get_clause_by_type]: the first clause of the type. *)
Definition get_clause_by_type (qd : QueryDescriptor) (k : clause_kind)
  : option QueryClause :=
  snd <$> list_find (fun c => clause_type c = k) (clauses qd).

(** [QueryDescriptor.replace_clauses] *)
Definition replace_clauses (qd : QueryDescriptor) (cs : list QueryClause)
  : QueryDescriptor :=
  {| clauses := cs |}.

(** ** The clause and descriptor methods the setter relies on *)

(** The contract of the methods of [QueryClause], [WeightedQueryClause]
    and [QueryDescriptor] that the setter calls, as the spec states it:
    altering a clause sets the parameter it names from [params] and
    nothing else; in an override pass the value is always set, otherwise
    only a parameter not yet evaluated is; a clause evaluates to the value
    of its evaluated parameter; appending the mandatory clauses keeps the
    clauses in place and adds every missing mandatory kind. *)
Class ClauseOps := {
  alter_value : QueryClause -> gmap string pyval -> bool -> QueryClause;
  alter_weight : QueryClause -> gmap string pyval -> bool -> QueryClause;
  evaluate : QueryClause -> pyval;
  calculate_param_infos : QueryDescriptor -> list ParamInfo;
  mandatory_kinds : list clause_kind;
  append_missing_mandatory_clauses : QueryDescriptor -> QueryDescriptor;

  alter_value_shape c params o :
    clause_type (alter_value c params o) = clause_type c /\
    weight_param (alter_value c params o) = weight_param c /\
    client_config (alter_value c params o) = client_config c /\
    ref_param (value_param (alter_value c params o)) = ref_param (value_param c);
  alter_value_set c params o v :
    params !! param_ref_name (value_param c) = Some v ->
    (o = true \/ is_evaluated (value_param c) = false) ->
    value_param (alter_value c params o) = REvaluated (ref_param (value_param c)) v;
  alter_value_keep c params o :
    (params !! param_ref_name (value_param c) = None \/
     (o = false /\ is_evaluated (value_param c) = true)) ->
    alter_value c params o = c;

  alter_weight_shape c params o :
    clause_type (alter_weight c params o) = clause_type c /\
    value_param (alter_weight c params o) = value_param c /\
    client_config (alter_weight c params o) = client_config c /\
    option_map ref_param (weight_param (alter_weight c params o)) =
      option_map ref_param (weight_param c);
  alter_weight_set c params o r v :
    weight_param c = Some r -> params !! param_ref_name r = Some v ->
    (o = true \/ is_evaluated r = false) ->
    weight_param (alter_weight c params o) = Some (REvaluated (ref_param r) v);
  alter_weight_keep c params o r :
    weight_param c = Some r ->
    (params !! param_ref_name r = None \/ (o = false /\ is_evaluated r = true)) ->
    alter_weight c params o = c;

  evaluate_evaluated c p v :
    value_param c = REvaluated p v -> evaluate c = v;

  append_prefix qd :
    exists extra, clauses (append_missing_mandatory_clauses qd) = (clauses qd ++ extra)%list;
  append_mandatory qd k :
    k ∈ mandatory_kinds ->
    exists c, c ∈ clauses (append_missing_mandatory_clauses qd) /\ clause_type c = k
}.

(** ** The setter *)

Section Setter.
Context `{!ClauseOps}.

(** [NLQParamEvaluator(param_infos).evaluate_param_infos(natural_query,
    client_config, system_prompt)] *)
Variable nlq_evaluate :
  list ParamInfo -> pyval -> option string -> pyval -> gmap string pyval.

(** The names [validate_params] collects: weight parameters of the
    weighted clauses, then value parameters of all clauses. *)
Definition param_names (qd : QueryDescriptor) : list string :=
  let weight_params := omap weight_param (get_weighted_clauses qd) in
  let value_params := map value_param (clauses qd) in
  let all_params := (weight_params ++ value_params)%list in
  map param_ref_name all_params.

Definition validate_params (qd : QueryDescriptor) (params_to_set : gmap string pyval)
  : result unit :=
  let unknown_params : gset string :=
    dom params_to_set ∖ list_to_set (param_names qd) in
  if bool_decide (unknown_params ≠ ∅)
  then let unknown_params_text := str_join ", " (elements unknown_params) in
       Err (ValueError ("Unknown query parameters: " ++ unknown_params_text ++ "."))
  else Ok tt.

Definition alter_clause (clause : QueryClause) (params : gmap string pyval)
  (is_override_set : bool) : QueryClause :=
  let clause := alter_value clause params is_override_set in
  if bool_decide (is_Some (weight_param clause))
  then alter_weight clause params is_override_set
  else clause.

Definition alter_query_descriptor (qd : QueryDescriptor) (params : gmap string pyval)
  (is_override_set : bool) : QueryDescriptor :=
  let altered_clauses :=
    map (fun clause => alter_clause clause params is_override_set) (clauses qd) in
  replace_clauses qd altered_clauses.

Definition calculate_nlq_params (qd : QueryDescriptor) : gmap string pyval :=
  match get_clause_by_type qd NLQClause with
  | Some nlq_clause =>
      let natural_query := evaluate nlq_clause in
      if py_truthy natural_query then
        let system_prompt :=
          match get_clause_by_type qd NLQSystemPromptClause with
          | Some c => evaluate c
          | None => VNone
          end in
        let param_infos := calculate_param_infos qd in
        nlq_evaluate param_infos natural_query (client_config nlq_clause) system_prompt
      else ∅
  | None => ∅
  end.

Definition set_values (qd : QueryDescriptor) (params : gmap string pyval)
  : result QueryDescriptor :=
  result_bind (validate_params qd params) (fun _ =>
    let altered_query_descriptor := alter_query_descriptor qd params true in
    let nlq_params := calculate_nlq_params altered_query_descriptor in
    let nlq_altered_query_descriptor :=
      alter_query_descriptor altered_query_descriptor nlq_params false in
    Ok (append_missing_mandatory_clauses nlq_altered_query_descriptor)).

(** The reading of the two passes the spec suggests (its design notes):
    one overlay of the merged mapping [params ∪ nlq_params], in which the
    explicit keys win, applied without overriding what is already
    evaluated. *)
Definition set_values_merged (qd : QueryDescriptor) (params : gmap string pyval)
  : result QueryDescriptor :=
  result_bind (validate_params qd params) (fun _ =>
    let nlq_params := calculate_nlq_params (alter_query_descriptor qd params true) in
    Ok (append_missing_mandatory_clauses
          (alter_query_descriptor qd (params ∪ nlq_params) false))).
End Setter.

(** ** The clause methods, from the spec

    A parameter named in [params] takes the given value, wrapped as
    [Evaluated], in an override pass, and otherwise only if it was not
    evaluated yet; a clause evaluates to its value parameter's value or
    default; the mandatory clauses are a list of default clauses, appended
    when no clause of their kind is present. *)

Definition alter_param_ref (r : ParamRef) (params : gmap string pyval)
  (is_override_set : bool) : ParamRef :=
  match params !! param_ref_name r with
  | Some v => if is_override_set || negb (is_evaluated r)
              then REvaluated (ref_param r) v else r
  | None => r
  end.

Definition QueryClause_alter_value (c : QueryClause) (params : gmap string pyval)
  (is_override_set : bool) : QueryClause :=
  {| clause_type := clause_type c;
     value_param := alter_param_ref (value_param c) params is_override_set;
     weight_param := weight_param c;
     client_config := client_config c |}.

Definition WeightedQueryClause_alter_weight (c : QueryClause)
  (params : gmap string pyval) (is_override_set : bool) : QueryClause :=
  match weight_param c with
  | Some r => {| clause_type := clause_type c; value_param := value_param c;
                 weight_param := Some (alter_param_ref r params is_override_set);
                 client_config := client_config c |}
  | None => c
  end.

Definition param_ref_value (r : ParamRef) : option pyval :=
  match r with REvaluated _ v => Some v | RParam p => param_default p end.

Definition QueryClause_evaluate (c : QueryClause) : pyval :=
  match param_ref_value (value_param c) with Some v => v | None => VNone end.

Definition QueryDescriptor_calculate_param_infos (qd : QueryDescriptor)
  : list ParamInfo :=
  flat_map (fun c =>
    mkParamInfo (param_ref_name (value_param c)) false (param_ref_value (value_param c)) ::
    match weight_param c with
    | Some r => [mkParamInfo (param_ref_name r) true (param_ref_value r)]
    | None => []
    end) (clauses qd).

Definition QueryDescriptor_append_missing_mandatory_clauses
  (defaults : list QueryClause) (qd : QueryDescriptor) : QueryDescriptor :=
  {| clauses := clauses qd ++
       filter (fun d => clause_type d ∉ map clause_type (clauses qd)) defaults |}.

Lemma alter_param_ref_ref r params o :
  ref_param (alter_param_ref r params o) = ref_param r.
Proof. unfold alter_param_ref. by destruct (params !! _), o, (is_evaluated r). Qed.

Lemma alter_param_ref_set r params o v :
  params !! param_ref_name r = Some v -> (o = true \/ is_evaluated r = false) ->
  alter_param_ref r params o = REvaluated (ref_param r) v.
Proof.
  unfold alter_param_ref. intros -> [ -> | -> ]; [done|]. by rewrite orb_true_r.
Qed.

Lemma alter_param_ref_keep r params o :
  (params !! param_ref_name r = None \/ (o = false /\ is_evaluated r = true)) ->
  alter_param_ref r params o = r.
Proof.
  unfold alter_param_ref. intros [ -> | [-> ->] ]; [done|]. by destruct (params !! _).
Qed.

Definition spec_clause_ops (defaults : list QueryClause) : ClauseOps.
Proof.
  refine {|
    alter_value := QueryClause_alter_value;
    alter_weight := WeightedQueryClause_alter_weight;
    evaluate := QueryClause_evaluate;
    calculate_param_infos := QueryDescriptor_calculate_param_infos;
    mandatory_kinds := map clause_type defaults;
    append_missing_mandatory_clauses :=
      QueryDescriptor_append_missing_mandatory_clauses defaults |}.
  - intros c params o. simpl. by rewrite alter_param_ref_ref.
  - intros c params o v Hv Ho. exact (alter_param_ref_set _ _ _ _ Hv Ho).
  - intros [k vp wp cc] params o Hk. unfold QueryClause_alter_value. simpl in *.
    by rewrite alter_param_ref_keep.
  - intros [k vp [r|] cc] params o; simpl; [|done].
    by rewrite alter_param_ref_ref.
  - intros [k vp wp cc] params o r v Hw Hv Ho. simpl in *. subst wp. simpl.
    by rewrite (alter_param_ref_set _ _ _ v).
  - intros [k vp wp cc] params o r Hw Hk. simpl in *. subst wp.
    unfold WeightedQueryClause_alter_weight. simpl. by rewrite alter_param_ref_keep.
  - intros c p v Hv. unfold QueryClause_evaluate. by rewrite Hv.
  - intros qd. by eexists.
  - intros qd k (d & -> & Hd)%list_elem_of_fmap.
    unfold QueryDescriptor_append_missing_mandatory_clauses. simpl.
    destruct (decide (clause_type d ∈ map clause_type (clauses qd))) as [Hin|Hin].
    + apply list_elem_of_fmap in Hin as (c & Hc & Hin). exists c.
      split; [apply elem_of_app; by left|done].
    + exists d. split; [|done]. apply elem_of_app. right.
      by apply list_elem_of_filter.
Defined.

(** ** Facts about the setter, against the interface *)

Section SetterFacts.
Context `{!ClauseOps}.
Local Open Scope list_scope.
Variable nlq_evaluate :
  list ParamInfo -> pyval -> option string -> pyval -> gmap string pyval.

Lemma param_ref_name_ref r : param_ref_name r = param_name (ref_param r).
Proof. by destruct r. Qed.

Lemma alter_clause_shape c params o :
  clause_type (alter_clause c params o) = clause_type c /\
  client_config (alter_clause c params o) = client_config c /\
  ref_param (value_param (alter_clause c params o)) = ref_param (value_param c) /\
  option_map ref_param (weight_param (alter_clause c params o)) =
    option_map ref_param (weight_param c).
Proof.
  unfold alter_clause. destruct (alter_value_shape c params o) as (Ht & Hw & Hc & Hr).
  case_bool_decide.
  - destruct (alter_weight_shape (alter_value c params o) params o) as (Ht' & Hv' & Hc' & Hw').
    rewrite Ht', Hv', Hc', Hw', Hw. done.
  - rewrite Hw. done.
Qed.

Lemma alter_clause_value_param c params o :
  value_param (alter_clause c params o) = value_param (alter_value c params o).
Proof.
  unfold alter_clause. case_bool_decide; [|done].
  apply alter_weight_shape.
Qed.

Lemma alter_clause_value_set c params o v :
  params !! param_ref_name (value_param c) = Some v ->
  (o = true \/ is_evaluated (value_param c) = false) ->
  value_param (alter_clause c params o) = REvaluated (ref_param (value_param c)) v.
Proof. intros. rewrite alter_clause_value_param. by apply alter_value_set. Qed.

Lemma alter_clause_value_keep c params o :
  (params !! param_ref_name (value_param c) = None \/
   (o = false /\ is_evaluated (value_param c) = true)) ->
  value_param (alter_clause c params o) = value_param c.
Proof. intros. rewrite alter_clause_value_param. by rewrite alter_value_keep. Qed.

Lemma alter_clause_weight_set c params o r v :
  weight_param c = Some r -> params !! param_ref_name r = Some v ->
  (o = true \/ is_evaluated r = false) ->
  weight_param (alter_clause c params o) = Some (REvaluated (ref_param r) v).
Proof.
  intros Hw Hv Ho. unfold alter_clause.
  destruct (alter_value_shape c params o) as (_ & Hw' & _).
  rewrite bool_decide_true by (rewrite Hw'; by rewrite Hw).
  apply alter_weight_set; [by rewrite Hw'|done|done].
Qed.

Lemma alter_clause_weight_keep c params r :
  weight_param c = Some r -> is_evaluated r = true ->
  weight_param (alter_clause c params false) = Some r.
Proof.
  intros Hw He. unfold alter_clause.
  destruct (alter_value_shape c params false) as (_ & Hw' & _).
  rewrite bool_decide_true by (rewrite Hw'; by rewrite Hw).
  rewrite (alter_weight_keep _ _ _ r); [congruence|congruence|by right].
Qed.

Lemma alter_clause_empty c o : alter_clause c ∅ o = c.
Proof.
  unfold alter_clause. rewrite alter_value_keep by (left; apply lookup_empty).
  case_bool_decide as Hw; [|done]. destruct (weight_param c) as [r|] eqn:Hr; [|by destruct Hw].
  apply (alter_weight_keep _ _ _ r); [done|left; apply lookup_empty].
Qed.

Lemma alter_qd_lookup qd params o i :
  clauses (alter_query_descriptor qd params o) !! i =
  (fun c => alter_clause c params o) <$> clauses qd !! i.
Proof. apply list_lookup_fmap. Qed.

Lemma alter_qd_empty qd o : alter_query_descriptor qd ∅ o = qd.
Proof.
  destruct qd as [cs]. unfold alter_query_descriptor, replace_clauses. simpl. f_equal.
  induction cs as [|c cs IH]; [done|]. simpl. by rewrite alter_clause_empty, IH.
Qed.

(** The interface determines the alteration: every implementation of
    [ClauseOps] alters a clause's parameters as [alter_param_ref] does. *)
Lemma alter_value_char c m o :
  alter_value c m o =
  {| clause_type := clause_type c; value_param := alter_param_ref (value_param c) m o;
     weight_param := weight_param c; client_config := client_config c |}.
Proof.
  destruct (alter_value_shape c m o) as (Ht & Hw & Hc & _).
  destruct (m !! param_ref_name (value_param c)) as [v|] eqn:Hv;
    [destruct (decide (o = true \/ is_evaluated (value_param c) = false)) as [Ho|Ho]|].
  - rewrite (alter_param_ref_set _ _ _ v) by done.
    pose proof (alter_value_set c m o v Hv Ho) as Hs.
    destruct (alter_value c m o); simpl in *; congruence.
  - assert (Hk : o = false /\ is_evaluated (value_param c) = true)
      by (destruct o, (is_evaluated _); naive_solver).
    rewrite alter_value_keep, alter_param_ref_keep by (right; exact Hk). by destruct c.
  - rewrite alter_value_keep, alter_param_ref_keep by (left; done). by destruct c.
Qed.

Lemma alter_weight_char c m o :
  alter_weight c m o =
  {| clause_type := clause_type c; value_param := value_param c;
     weight_param := (fun r => alter_param_ref r m o) <$> weight_param c;
     client_config := client_config c |}.
Proof.
  destruct (alter_weight_shape c m o) as (Ht & Hv & Hc & Hw).
  destruct (weight_param c) as [r|] eqn:Hr; simpl.
  - destruct (m !! param_ref_name r) as [v|] eqn:Hl;
      [destruct (decide (o = true \/ is_evaluated r = false)) as [Ho|Ho]|].
    + rewrite (alter_param_ref_set _ _ _ v) by done.
      pose proof (alter_weight_set c m o r v Hr Hl Ho) as Hs.
      destruct (alter_weight c m o); simpl in *; congruence.
    + assert (Hk : o = false /\ is_evaluated r = true)
        by (destruct o, (is_evaluated r); naive_solver).
      rewrite (alter_weight_keep c m o r), alter_param_ref_keep by (done || (right; exact Hk)).
      destruct c; simpl in *; congruence.
    + rewrite (alter_weight_keep c m o r), alter_param_ref_keep by (done || (left; done)).
      destruct c; simpl in *; congruence.
  - destruct (alter_weight c m o) as [k vp [w|] cc]; simpl in *; [discriminate|congruence].
Qed.

Lemma alter_clause_char c m o :
  alter_clause c m o =
  {| clause_type := clause_type c; value_param := alter_param_ref (value_param c) m o;
     weight_param := (fun r => alter_param_ref r m o) <$> weight_param c;
     client_config := client_config c |}.
Proof.
  unfold alter_clause. rewrite alter_value_char. simpl.
  case_bool_decide as Hs.
  - by rewrite alter_weight_char.
  - destruct (weight_param c); [by destruct Hs|done].
Qed.

(** An override pass then a filling pass is one filling pass of the
    merged mapping, on a parameter the override pass may set. *)
Lemma alter_param_ref_merge r p n :
  key_unevaluated p r = true ->
  alter_param_ref (alter_param_ref r p true) n false = alter_param_ref r (p ∪ n) false.
Proof.
  unfold key_unevaluated. intros Hk.
  destruct (p !! param_ref_name r) as [v|] eqn:Hp.
  - rewrite bool_decide_false, orb_false_r in Hk by congruence.
    rewrite (alter_param_ref_set r p true v Hp (or_introl eq_refl)).
    rewrite alter_param_ref_keep by (right; done).
    rewrite (alter_param_ref_set r (p ∪ n) false v); [done| |].
    + by apply lookup_union_Some_l.
    + right. by destruct (is_evaluated r).
  - rewrite (alter_param_ref_keep r p true) by (left; done).
    unfold alter_param_ref. by rewrite lookup_union_r.
Qed.

Lemma alter_clause_merge c p n :
  key_unevaluated p (value_param c) && from_option (key_unevaluated p) true (weight_param c)
    = true ->
  alter_clause (alter_clause c p true) n false = alter_clause c (p ∪ n) false.
Proof.
  intros [Hv Hw]%andb_prop. rewrite !alter_clause_char. simpl.
  rewrite alter_param_ref_merge by done. f_equal.
  destruct (weight_param c); simpl in *; [|done]. by rewrite alter_param_ref_merge.
Qed.

Lemma alter_qd_merge qd p n :
  explicit_keys_unevaluated qd p = true ->
  alter_query_descriptor (alter_query_descriptor qd p true) n false =
  alter_query_descriptor qd (p ∪ n) false.
Proof.
  destruct qd as [cs]. unfold explicit_keys_unevaluated, alter_query_descriptor,
    replace_clauses. simpl. intros Hu. f_equal.
  induction cs as [|c cs IH]; [done|]. simpl in *.
  apply andb_prop in Hu as [Hc Hcs]. by rewrite alter_clause_merge, IH.
Qed.

Definition clause_weight_name (c : QueryClause) : option string :=
  param_ref_name <$> weight_param c.

Lemma param_names_split qd :
  param_names qd =
  (omap clause_weight_name (clauses qd) ++
   map (fun c => param_ref_name (value_param c)) (clauses qd))%list.
Proof.
  unfold param_names, get_weighted_clauses. rewrite map_app, map_map.
  f_equal. induction (clauses qd) as [|c cs IH]; [done|].
  rewrite filter_cons. unfold clause_weight_name at 1.
  destruct (decide (is_Some (weight_param c))) as [Hs|Hs]; simpl;
    destruct (weight_param c) as [r|]; simpl; try by destruct Hs.
  - f_equal. exact IH.
  - exact IH.
Qed.

Lemma clause_names_alter c params o :
  clause_weight_name (alter_clause c params o) = clause_weight_name c /\
  param_ref_name (value_param (alter_clause c params o)) = param_ref_name (value_param c).
Proof.
  destruct (alter_clause_shape c params o) as (_ & _ & Hv & Hw).
  unfold clause_weight_name. rewrite !param_ref_name_ref, Hv. split; [|done].
  destruct (weight_param (alter_clause c params o)), (weight_param c);
    simpl in *; try discriminate; [|done].
  injection Hw as Hw. by rewrite !param_ref_name_ref, Hw.
Qed.

Lemma param_names_alter qd params o :
  param_names (alter_query_descriptor qd params o) = param_names qd.
Proof.
  rewrite !param_names_split. destruct qd as [cs]. simpl. f_equal.
  - induction cs as [|c cs IH]; [done|]. simpl.
    rewrite (proj1 (clause_names_alter c params o)).
    destruct (clause_weight_name c); [f_equal|]; exact IH.
  - induction cs as [|c cs IH]; [done|]. simpl.
    by rewrite (proj2 (clause_names_alter c params o)), IH.
Qed.

Lemma get_clause_by_type_alter qd params o k :
  get_clause_by_type (alter_query_descriptor qd params o) k =
  (fun c => alter_clause c params o) <$> get_clause_by_type qd k.
Proof.
  unfold get_clause_by_type, alter_query_descriptor, replace_clauses. simpl.
  induction (clauses qd) as [|c cs IH]; [done|]. simpl.
  rewrite (proj1 (alter_clause_shape c params o)).
  case_decide; [done|].
  destruct (list_find _ (map _ cs)) as [[i c']|], (list_find _ cs) as [[j c'']|];
    simpl in *; congruence.
Qed.
Lemma elem_of_param_name_set k qd :
  k ∈ (list_to_set (param_names qd) : gset string) <-> k ∈ param_names qd.
Proof. apply elem_of_list_to_set. Qed.

Lemma validate_params_cases qd params :
  validate_params qd params =
  if bool_decide (dom params ⊆ list_to_set (param_names qd)) then Ok tt
  else Err (ValueError ("Unknown query parameters: " ++
                        str_join ", " (elements (dom params ∖ list_to_set (param_names qd))) ++
                        ".")%string).
Proof.
  unfold validate_params.
  case_bool_decide as Hne; case_bool_decide as Hsub; try done; exfalso.
  - apply Hne. set_solver.
  - apply Hsub. intros k Hk.
    destruct (decide (k ∈ (list_to_set (param_names qd) : gset string))) as [|Hn]; [done|].
    assert (Hd : k ∈ dom params ∖ list_to_set (param_names qd)) by set_solver.
    rewrite Hne in Hd. set_solver.
Qed.

Lemma elem_of_param_names k qd :
  k ∈ param_names qd <->
  exists c, c ∈ clauses qd /\
    (k = param_ref_name (value_param c) \/
     exists r, weight_param c = Some r /\ k = param_ref_name r).
Proof.
  rewrite param_names_split, elem_of_app, list_elem_of_omap, list_elem_of_In, in_map_iff.
  unfold clause_weight_name. split.
  - intros [(c & Hc & Hw)|(c & <- & Hc%list_elem_of_In)]; exists c; split; try done; [right|by left].
    destruct (weight_param c) as [r|]; simpl in Hw; [|done]. injection Hw as <-. by exists r.
  - intros (c & Hc & [->|(r & Hr & ->)]).
    + right. exists c. split; [done|by apply list_elem_of_In].
    + left. exists c. by rewrite Hr.
Qed.

(** The evaluator's call when the [NLQClause]'s query is given
    explicitly. *)
Lemma calculate_nlq_params_explicit_query qd params c q :
  get_clause_by_type qd NLQClause = Some c ->
  params !! param_ref_name (value_param c) = Some q -> py_truthy q = true ->
  exists system_prompt,
    calculate_nlq_params nlq_evaluate (alter_query_descriptor qd params true) =
    nlq_evaluate (calculate_param_infos (alter_query_descriptor qd params true))
                 q (client_config c) system_prompt.
Proof.
  intros Hc Hq Ht. unfold calculate_nlq_params. rewrite get_clause_by_type_alter, Hc. simpl.
  rewrite (evaluate_evaluated _ (ref_param (value_param c)) q)
    by (apply alter_clause_value_set; [done|by left]).
  rewrite Ht, (proj1 (proj2 (alter_clause_shape c params true))). by eexists.
Qed.

Lemma set_values_lookup qd params qd' i c :
  set_values nlq_evaluate qd params = Ok qd' -> clauses qd !! i = Some c ->
  clauses qd' !! i =
  Some (alter_clause (alter_clause c params true)
          (calculate_nlq_params nlq_evaluate (alter_query_descriptor qd params true)) false).
Proof.
  unfold set_values. destruct (validate_params qd params); [|done]. simpl.
  intros [= <-] Hi.
  destruct (append_prefix (alter_query_descriptor (alter_query_descriptor qd params true)
             (calculate_nlq_params nlq_evaluate (alter_query_descriptor qd params true)) false))
    as [extra ->].
  apply lookup_app_l_Some. rewrite !alter_qd_lookup, Hi. done.
Qed.

(** ** Properties of the setter *)

(** C23. [validate_params] accepts the parameters exactly when every key
    is the name of the value parameter of some clause of the descriptor,
    or of the weight parameter of some clause that has one. *)
Theorem validate_params_ok_iff qd params :
  validate_params qd params = Ok tt <->
  forall k, k ∈ dom params ->
    exists c, c ∈ clauses qd /\
      (k = param_ref_name (value_param c) \/
       exists r, weight_param c = Some r /\ k = param_ref_name r).
Proof.
  rewrite validate_params_cases. case_bool_decide as Hs; split; try done.
  - intros _ k Hk. apply elem_of_param_names, elem_of_param_name_set. by apply Hs.
  - intros Hall. exfalso. apply Hs. intros k Hk.
    apply elem_of_param_name_set, elem_of_param_names. auto.
Qed.

(** C24. When a key names no parameter, [set_values] raises [ValueError]
    before altering anything, and its message names every unknown key. *)
Theorem set_values_unknown_raises qd params k :
  k ∈ dom params -> k ∉ param_names qd ->
  exists msg, set_values nlq_evaluate qd params = Err (ValueError msg) /\
    forall k', k' ∈ dom params -> k' ∉ param_names qd -> is_substring k' msg.
Proof.
  intros Hk Hn. unfold set_values. rewrite validate_params_cases.
  rewrite bool_decide_false.
  2:{ intros Hs. apply Hn, elem_of_param_name_set. by apply Hs. }
  eexists. split; [done|]. intros k' Hk' Hn'.
  apply is_substring_app_l, is_substring_app_r, str_join_substring.
  apply elem_of_elements, elem_of_difference. split; [done|].
  by rewrite elem_of_param_name_set.
Qed.

(** C18. An explicit value wins: a clause whose value parameter is given
    in [params] ends up evaluated to that value, whatever the
    natural-language evaluator infers. *)
Theorem set_values_explicit_value_wins qd params qd' i c v :
  set_values nlq_evaluate qd params = Ok qd' ->
  clauses qd !! i = Some c ->
  params !! param_ref_name (value_param c) = Some v ->
  exists c', clauses qd' !! i = Some c' /\
             value_param c' = REvaluated (ref_param (value_param c)) v.
Proof.
  intros Hset Hi Hv. rewrite (set_values_lookup _ _ _ _ _ Hset Hi). eexists. split; [done|].
  rewrite alter_clause_value_keep; [by apply alter_clause_value_set; [|left]|].
  right. split; [done|]. by rewrite (alter_clause_value_set _ _ _ v); [|done|left].
Qed.

(** C21. An explicit weight wins: a weighted clause whose weight parameter
    is given in [params] ends up with that weight, whatever the
    natural-language evaluator infers. *)
Theorem set_values_explicit_weight_wins qd params qd' i c r v :
  set_values nlq_evaluate qd params = Ok qd' ->
  clauses qd !! i = Some c -> weight_param c = Some r ->
  params !! param_ref_name r = Some v ->
  exists c', clauses qd' !! i = Some c' /\
             weight_param c' = Some (REvaluated (ref_param r) v).
Proof.
  intros Hset Hi Hw Hv. rewrite (set_values_lookup _ _ _ _ _ Hset Hi). eexists. split; [done|].
  apply alter_clause_weight_keep; [|done].
  by apply alter_clause_weight_set; [| |left].
Qed.

(** C20. Inferred values fill the gaps: a value parameter neither
    evaluated nor given in [params] takes the value the natural-language
    evaluator infers for it. *)
Theorem set_values_nlq_fills qd params qd' i c v :
  set_values nlq_evaluate qd params = Ok qd' ->
  clauses qd !! i = Some c ->
  is_evaluated (value_param c) = false ->
  params !! param_ref_name (value_param c) = None ->
  calculate_nlq_params nlq_evaluate (alter_query_descriptor qd params true)
    !! param_ref_name (value_param c) = Some v ->
  exists c', clauses qd' !! i = Some c' /\
             value_param c' = REvaluated (ref_param (value_param c)) v.
Proof.
  intros Hset Hi He Hp Hv. rewrite (set_values_lookup _ _ _ _ _ Hset Hi). eexists. split; [done|].
  assert (Hc1 : value_param (alter_clause c params true) = value_param c)
    by (apply alter_clause_value_keep; by left).
  rewrite alter_clause_value_set with (v := v); rewrite ?Hc1; try done. by right.
Qed.

(** C22. The natural-language evaluator runs after the explicit overrides:
    when the first [NLQClause]'s query is given in [params] and is
    non-empty, [set_values] calls the evaluator with that query and the
    clause's client configuration, and every value parameter neither
    evaluated nor given explicitly takes the value that call infers. *)
Theorem nlq_sees_explicit_query qd params qd' c q :
  set_values nlq_evaluate qd params = Ok qd' ->
  get_clause_by_type qd NLQClause = Some c ->
  params !! param_ref_name (value_param c) = Some q -> py_truthy q = true ->
  exists system_prompt, forall i c0 v,
    clauses qd !! i = Some c0 -> is_evaluated (value_param c0) = false ->
    params !! param_ref_name (value_param c0) = None ->
    nlq_evaluate (calculate_param_infos (alter_query_descriptor qd params true))
                 q (client_config c) system_prompt !! param_ref_name (value_param c0) = Some v ->
    exists c', clauses qd' !! i = Some c' /\
               value_param c' = REvaluated (ref_param (value_param c0)) v.
Proof.
  intros Hset Hc Hq Ht.
  destruct (calculate_nlq_params_explicit_query _ _ _ _ Hc Hq Ht) as [sp Hsp].
  exists sp. intros i c0 v Hi He Hp Hv.
  apply (set_values_nlq_fills qd params qd' i c0 v); [done..|]. by rewrite Hsp.
Qed.

(** C25. [set_values] keeps every clause in place with its type and
    parameter names, and the result holds a clause of every mandatory
    kind. *)
Theorem set_values_structure qd params qd' :
  set_values nlq_evaluate qd params = Ok qd' ->
  (forall i c, clauses qd !! i = Some c ->
     exists c', clauses qd' !! i = Some c' /\ clause_type c' = clause_type c /\
                param_ref_name (value_param c') = param_ref_name (value_param c)) /\
  (forall k, k ∈ mandatory_kinds -> exists c, c ∈ clauses qd' /\ clause_type c = k).
Proof.
  intros Hset. split.
  - intros i c Hi. rewrite (set_values_lookup _ _ _ _ _ Hset Hi). eexists. split; [done|].
    rewrite !(proj1 (alter_clause_shape _ _ _)). split; [done|].
    by rewrite !(proj2 (clause_names_alter _ _ _)).
  - intros k Hk. unfold set_values in Hset.
    destruct (validate_params qd params); [|done]. injection Hset as <-.
    by apply append_mandatory.
Qed.

(** C26. Without an [NLQClause], [set_values] of valid parameters is the
    override pass followed by the mandatory clauses: the second pass
    changes nothing. *)
Theorem set_values_without_nlq qd params :
  get_clause_by_type qd NLQClause = None ->
  dom params ⊆ list_to_set (param_names qd) ->
  set_values nlq_evaluate qd params =
  Ok (append_missing_mandatory_clauses (alter_query_descriptor qd params true)).
Proof.
  intros Hn Hall. unfold set_values. rewrite validate_params_cases.
  rewrite bool_decide_true by done. simpl.
  unfold calculate_nlq_params at 1. rewrite get_clause_by_type_alter, Hn. simpl.
  by rewrite alter_qd_empty.
Qed.

(** C19. The two passes of [set_values] are the spec's single merge:
    when no explicit key names an already evaluated parameter, the
    explicit override pass followed by the filling pass of the inferred
    values equals one filling pass of [params ∪ nlq_params], in which the
    explicit keys win. *)
Theorem set_values_two_pass_merge qd params :
  explicit_keys_unevaluated qd params = true ->
  set_values nlq_evaluate qd params = set_values_merged nlq_evaluate qd params.
Proof.
  intros Hu. unfold set_values, set_values_merged.
  destruct (validate_params qd params); [|done]. simpl.
  by rewrite alter_qd_merge.
Qed.

End SetterFacts.

(** ** Witnesses *)

Definition p_query := mkParam "query" None.
Definition p_text := mkParam "text" None.
Definition p_text_weight := mkParam "text_weight" (Some (VFloat 1)).
Definition p_limit := mkParam "limit" (Some (VInt 10)).

Definition demo_qd : QueryDescriptor := {| clauses := [
  mkClause NLQClause (RParam p_query) None (Some "openai");
  mkClause SimilarFilterClause (RParam p_text) (Some (RParam p_text_weight)) None;
  mkClause LimitClause (RParam p_limit) None None ] |}.

Definition demo_ops : ClauseOps :=
  spec_clause_ops [mkClause LimitClause (RParam p_limit) None None;
                   mkClause RadiusClause (RParam (mkParam "radius" None)) None None].

(** An evaluator that understands one query only. *)
Definition demo_nlq (_ : list ParamInfo) (q : pyval) (_ : option string) (_ : pyval)
  : gmap string pyval :=
  match q with
  | VStr s => if String.eqb s "red shoes"
              then {[ "text" := VStr "inferred"; "text_weight" := VFloat 2; "limit" := VInt 5 ]}
              else ∅
  | _ => ∅
  end.

Definition demo_params : gmap string pyval :=
  {[ "query" := VStr "red shoes"; "text" := VStr "explicit"; "text_weight" := VFloat 3 ]}.

Definition demo_bad_params : gmap string pyval :=
  {[ "query" := VStr "red shoes"; "colour" := VStr "red" ]}.

Definition demo_result : QueryDescriptor :=
  match @set_values demo_ops demo_nlq demo_qd demo_params with
  | Ok q => q | Err _ => demo_qd
  end.

Lemma set_values_unknown_raises_witness :
  exists msg, @set_values demo_ops demo_nlq demo_qd demo_bad_params = Err (ValueError msg) /\
    forall k', k' ∈ dom demo_bad_params -> k' ∉ param_names demo_qd -> is_substring k' msg.
Proof.
  apply (@set_values_unknown_raises demo_ops demo_nlq demo_qd demo_bad_params "colour").
  - apply (bool_decide_unpack _). vm_compute. reflexivity.
  - apply (bool_decide_unpack _). vm_compute. reflexivity.
Defined.

Lemma set_values_explicit_value_wins_witness :
  exists c', clauses demo_result !! 1 = Some c' /\
             value_param c' = REvaluated p_text (VStr "explicit").
Proof.
  apply (@set_values_explicit_value_wins demo_ops demo_nlq demo_qd demo_params demo_result 1
           (mkClause SimilarFilterClause (RParam p_text) (Some (RParam p_text_weight)) None));
    vm_compute; reflexivity.
Defined.

Lemma set_values_explicit_weight_wins_witness :
  exists c', clauses demo_result !! 1 = Some c' /\
             weight_param c' = Some (REvaluated p_text_weight (VFloat 3)).
Proof.
  apply (@set_values_explicit_weight_wins demo_ops demo_nlq demo_qd demo_params demo_result 1
           (mkClause SimilarFilterClause (RParam p_text) (Some (RParam p_text_weight)) None)
           (RParam p_text_weight));
    vm_compute; reflexivity.
Defined.

Lemma set_values_nlq_fills_witness :
  exists c', clauses demo_result !! 2 = Some c' /\
             value_param c' = REvaluated p_limit (VInt 5).
Proof.
  apply (@set_values_nlq_fills demo_ops demo_nlq demo_qd demo_params demo_result 2
           (mkClause LimitClause (RParam p_limit) None None));
    vm_compute; reflexivity.
Defined.

Lemma nlq_sees_explicit_query_witness :
  exists system_prompt, forall i c0 v,
    clauses demo_qd !! i = Some c0 -> is_evaluated (value_param c0) = false ->
    demo_params !! param_ref_name (value_param c0) = None ->
    demo_nlq (@calculate_param_infos demo_ops
                (@alter_query_descriptor demo_ops demo_qd demo_params true))
             (VStr "red shoes") (Some "openai") system_prompt
      !! param_ref_name (value_param c0) = Some v ->
    exists c', clauses demo_result !! i = Some c' /\
               value_param c' = REvaluated (ref_param (value_param c0)) v.
Proof.
  apply (@nlq_sees_explicit_query demo_ops demo_nlq demo_qd demo_params demo_result
           (mkClause NLQClause (RParam p_query) None (Some "openai")));
    vm_compute; reflexivity.
Defined.

Lemma set_values_structure_witness :
  (forall i c, clauses demo_qd !! i = Some c ->
     exists c', clauses demo_result !! i = Some c' /\ clause_type c' = clause_type c /\
                param_ref_name (value_param c') = param_ref_name (value_param c)) /\
  (forall k, k ∈ [LimitClause; RadiusClause] ->
     exists c, c ∈ clauses demo_result /\ clause_type c = k).
Proof.
  apply (@set_values_structure demo_ops demo_nlq demo_qd demo_params demo_result).
  vm_compute. reflexivity.
Defined.

Definition demo_qd_plain : QueryDescriptor := {| clauses := [
  mkClause SimilarFilterClause (RParam p_text) (Some (RParam p_text_weight)) None ] |}.

Lemma set_values_without_nlq_witness :
  @set_values demo_ops demo_nlq demo_qd_plain {[ "text" := VStr "explicit" ]} =
  Ok (@append_missing_mandatory_clauses demo_ops
        (@alter_query_descriptor demo_ops demo_qd_plain {[ "text" := VStr "explicit" ]} true)).
Proof.
  apply set_values_without_nlq.
  - vm_compute. reflexivity.
  - apply (bool_decide_unpack _). vm_compute. reflexivity.
Defined.

Lemma set_values_two_pass_merge_witness :
  @set_values demo_ops demo_nlq demo_qd demo_params =
  @set_values_merged demo_ops demo_nlq demo_qd demo_params.
Proof. apply set_values_two_pass_merge. vm_compute. reflexivity. Defined.

(** The condition is needed: an explicit value for a parameter that is
    already evaluated overrides it in the code, while a filling pass of
    the merged mapping would keep it. *)
Example two_pass_merge_needs_unevaluated :
  let qd := {| clauses := [mkClause LimitClause (REvaluated p_limit (VInt 10)) None None] |} in
  let ps : gmap string pyval := {[ "limit" := VInt 3 ]} in
  @set_values demo_ops demo_nlq qd ps <> @set_values_merged demo_ops demo_nlq qd ps.
Proof. vm_compute. discriminate. Qed.

End QuerySetter.
